(** * The tree transform engine of breezy (src/breezy/transform.py)

    A shallow embedding of the staging graph ([TreeTransform]), of the
    conflict resolver ([resolve_conflicts], [conflict_pass]) and of the
    rename journal ([_FileMover]), with the properties the specification
    states about them.

    Python dictionaries are finite maps ([gmap]), Python sets are finite
    sets ([gset]), trans_ids, paths and names are strings.  A method that
    mutates [self] or raises is a function from the state to an outcome and
    the state it leaves behind: an exception does not undo the mutations that
    were made before it was raised. *)

From stdpp Require Import base strings gmap list pretty.
From Stdlib Require Import ZArith Ascii.

Local Open Scope string_scope.
Local Open Scope list_scope.

(** ** Outcomes and exceptions *)

(** A raw conflict is a Python tuple of strings: the detector reports
    [(c_type, id)] or [(c_type, id, id)], the resolver records
    [(c_type, action, id)] or [(c_type, action, id, id)]. *)
Abbreviation raw_conflict := (list string).

(** What [os.rename] raises: [OSError] with its [errno] and its text. *)
Record OSError := mkOSError { errno : Z; strerror : string }.

#[export] Instance OSError_eq_dec : EqDecision OSError.
Proof. solve_decision. Defined.

(** [errno.EEXIST] and [errno.ENOTEMPTY], with the values they have on
    Linux. *)
Definition EEXIST : Z := 17.
Definition ENOTEMPTY : Z := 39.

(** The exceptions that travel through the code below.  [UncaughtOSError] is
    an [OSError] that nothing has turned into an error of the transform.
    [Diverges] is not a Python exception: it marks a [while] loop that did
    not finish within the fuel it was given. *)
Inductive exn : Type :=
| ValueError (msg : string)
| KeyError (key : string)
| IndexError
| TypeError
| AttributeError
| NotImplementedError
| StopIteration
| DuplicateKey (key : string)
| CantMoveRoot
| NoFinalPath (trans_id : string) (file_id root_trans_id : option string)
| MalformedTransform (conflicts : list raw_conflict)
| OrphaningError (orphan parent : string)
| OrphaningForbidden (policy : string)
| FileExists (path extra : string)
| TransformRenameFailed (from_path to_path why : string) (err : Z)
| UncaughtOSError (e : OSError)
| Diverges.

#[export] Instance exn_eq_dec : EqDecision exn.
Proof. solve_decision. Defined.

(** [except OrphaningError] catches the class and its subclass
    [OrphaningForbidden]. *)
Definition is_OrphaningError (e : exn) : bool :=
  match e with
  | OrphaningError _ _ | OrphaningForbidden _ => true
  | _ => false
  end.

Definition is_NoFinalPath (e : exn) : bool :=
  match e with NoFinalPath _ _ _ => true | _ => false end.

Inductive result (A : Type) : Type :=
| Ok (a : A)
| Raise (e : exn).
Arguments Ok {A} a.
Arguments Raise {A} e.

#[export] Instance result_eq_dec `{EqDecision A} : EqDecision (result A).
Proof. solve_decision. Defined.

(** A computation over a mutable object of type [S]. *)
Definition M (S A : Type) : Type := S → result A * S.

#[export] Instance M_ret {S} : MRet (M S) := λ A a s, (Ok a, s).
#[export] Instance M_bind {S} : MBind (M S) := λ A B k m s,
  match m s with
  | (Ok a, s') => k a s'
  | (Raise e, s') => (Raise e, s')
  end.

Definition raise {S A} (e : exn) : M S A := λ s, (Raise e, s).
Definition get {S} : M S S := λ s, (Ok s, s).
Definition modify {S} (f : S → S) : M S unit := λ s, (Ok (), f s).

(** [try: m except handles: h] runs [h] on an exception of [m] that
    [handles] accepts, and lets any other exception through. *)
Definition try_except {S A} (m : M S A) (handles : exn → bool)
    (h : exn → M S A) : M S A :=
  λ s, match m s with
       | (Ok a, s') => (Ok a, s')
       | (Raise e, s') => if handles e then h e s' else (Raise e, s')
       end.

(** A [for] loop over a list that threads an accumulator and stops at the
    first exception. *)
Fixpoint for_each {S A B} (l : list A) (acc : B) (body : A → B → M S B)
    : M S B :=
  match l with
  | [] => mret acc
  | x :: l' => acc' ← body x acc; for_each l' acc' body
  end.

(** [t[i]] on a tuple. *)
Definition item {S} (t : list string) (i : nat) : M S string :=
  match t !! i with
  | Some x => mret x
  | None => raise IndexError
  end.

(** ** os.path

    [dirname] and [basename] of [posixpath], on strings. *)

Module os_path.

Definition is_sep (c : ascii) : bool := bool_decide (c = "/"%char).

(** [(p[:i], p[i:])] for [i = p.rfind('/') + 1]. *)
Fixpoint rsplit (p : string) : string * string :=
  match p with
  | "" => ("", "")
  | String c p' =>
      let '(head, tail) := rsplit p' in
      if bool_decide (head = "") then
        if is_sep c then (String c "", p') else ("", String c p')
      else (String c head, tail)
  end.

(** [s.rstrip('/')] *)
Fixpoint rstrip (s : string) : string :=
  match s with
  | "" => ""
  | String c s' =>
      let r := rstrip s' in
      if is_sep c && bool_decide (r = "") then "" else String c r
  end.

Definition dirname (p : string) : string :=
  let head := (rsplit p).1 in
  if bool_decide (rstrip head = "") then head else rstrip head.

Definition basename (p : string) : string := (rsplit p).2.

End os_path.

(** ** The staging graph *)

Definition ROOT_PARENT : string := "root-parent".

(** The attributes [TreeTransform.__init__] sets, and [_new_root], which
    [adjust_path] reads and the concrete transforms set: the trans_id of the
    tree root, or [None] when the tree has no versioned root.  A kind is one
    of the strings ['file'], ['directory'], ['symlink'], ['tree-reference']. *)
Record TreeTransform : Type := mkTreeTransform {
  _id_number : nat;
  _tree_path_ids : gmap string string;
  _tree_id_paths : gmap string string;
  _new_name : gmap string string;
  _new_parent : gmap string string;
  _new_contents : gmap string string;
  _removed_contents : gset string;
  _new_executability : gmap string bool;
  _new_reference_revision : gmap string string;
  _removed_id : gset string;
  _done : bool;
  _new_root : option string
}.

#[export] Instance TreeTransform_eq_dec : EqDecision TreeTransform.
Proof. solve_decision. Defined.

Definition set_id_number (n : nat) (t : TreeTransform) : TreeTransform :=
  mkTreeTransform n (_tree_path_ids t) (_tree_id_paths t) (_new_name t)
    (_new_parent t) (_new_contents t) (_removed_contents t)
    (_new_executability t) (_new_reference_revision t) (_removed_id t)
    (_done t) (_new_root t).

Definition set_tree_path_ids (m : gmap string string) (t : TreeTransform)
    : TreeTransform :=
  mkTreeTransform (_id_number t) m (_tree_id_paths t) (_new_name t)
    (_new_parent t) (_new_contents t) (_removed_contents t)
    (_new_executability t) (_new_reference_revision t) (_removed_id t)
    (_done t) (_new_root t).

Definition set_tree_id_paths (m : gmap string string) (t : TreeTransform)
    : TreeTransform :=
  mkTreeTransform (_id_number t) (_tree_path_ids t) m (_new_name t)
    (_new_parent t) (_new_contents t) (_removed_contents t)
    (_new_executability t) (_new_reference_revision t) (_removed_id t)
    (_done t) (_new_root t).

Definition set_new_name (m : gmap string string) (t : TreeTransform)
    : TreeTransform :=
  mkTreeTransform (_id_number t) (_tree_path_ids t) (_tree_id_paths t) m
    (_new_parent t) (_new_contents t) (_removed_contents t)
    (_new_executability t) (_new_reference_revision t) (_removed_id t)
    (_done t) (_new_root t).

Definition set_new_parent (m : gmap string string) (t : TreeTransform)
    : TreeTransform :=
  mkTreeTransform (_id_number t) (_tree_path_ids t) (_tree_id_paths t)
    (_new_name t) m (_new_contents t) (_removed_contents t)
    (_new_executability t) (_new_reference_revision t) (_removed_id t)
    (_done t) (_new_root t).

Definition set_removed_contents (s : gset string) (t : TreeTransform)
    : TreeTransform :=
  mkTreeTransform (_id_number t) (_tree_path_ids t) (_tree_id_paths t)
    (_new_name t) (_new_parent t) (_new_contents t) s
    (_new_executability t) (_new_reference_revision t) (_removed_id t)
    (_done t) (_new_root t).

Definition set_new_executability (m : gmap string bool) (t : TreeTransform)
    : TreeTransform :=
  mkTreeTransform (_id_number t) (_tree_path_ids t) (_tree_id_paths t)
    (_new_name t) (_new_parent t) (_new_contents t) (_removed_contents t)
    m (_new_reference_revision t) (_removed_id t) (_done t) (_new_root t).

Definition set_new_reference_revision (m : gmap string string)
    (t : TreeTransform) : TreeTransform :=
  mkTreeTransform (_id_number t) (_tree_path_ids t) (_tree_id_paths t)
    (_new_name t) (_new_parent t) (_new_contents t) (_removed_contents t)
    (_new_executability t) m (_removed_id t) (_done t) (_new_root t).

Definition set_removed_id (s : gset string) (t : TreeTransform)
    : TreeTransform :=
  mkTreeTransform (_id_number t) (_tree_path_ids t) (_tree_id_paths t)
    (_new_name t) (_new_parent t) (_new_contents t) (_removed_contents t)
    (_new_executability t) (_new_reference_revision t) s (_done t)
    (_new_root t).

(** [TreeTransform.__init__]: every map and set empty, nothing applied. *)
Definition init (root : option string) : TreeTransform :=
  mkTreeTransform 0 ∅ ∅ ∅ ∅ ∅ ∅ ∅ ∅ ∅ false root.

(** The fields that stage names, parents, contents, executability and
    versioning; the other ones only hand out trans_ids. *)
Definition staging_graph (t : TreeTransform) :=
  (_new_name t, _new_parent t, _new_contents t, _removed_contents t,
   _new_executability t, _removed_id t).

Abbreviation TT := (M TreeTransform).

(** [unique_add(map, key, value)] on one of the string-valued maps. *)
Definition unique_add {V} (map : TreeTransform → gmap string V)
    (set_map : gmap string V → TreeTransform → TreeTransform)
    (key : string) (value : V) : TT unit :=
  λ t, match map t !! key with
       | Some _ => (Raise (DuplicateKey key), t)
       | None => (Ok (), set_map (<[key := value]> (map t)) t)
       end.

Definition canonical_path (path : string) : string := path.

Definition _assign_id : TT string :=
  λ t, (Ok ("new-" +:+ pretty (_id_number t)),
        set_id_number (S (_id_number t)) t).

Definition trans_id_tree_path (path : string) : TT string :=
  let path := canonical_path path in
  t ← get;
  match _tree_path_ids t !! path with
  | Some trans_id => mret trans_id
  | None =>
      new_id ← _assign_id;
      modify (λ t, set_tree_path_ids (<[path := new_id]> (_tree_path_ids t)) t);;
      modify (λ t, set_tree_id_paths (<[new_id := path]> (_tree_id_paths t)) t);;
      mret new_id
  end.

Definition get_tree_parent (trans_id : string) : TT string :=
  t ← get;
  match _tree_id_paths t !! trans_id with
  | None => raise (KeyError trans_id)
  | Some path =>
      if bool_decide (path = "") then mret ROOT_PARENT
      else trans_id_tree_path (os_path.dirname path)
  end.

Definition create_path (name parent : string) : TT string :=
  trans_id ← _assign_id;
  unique_add _new_name set_new_name trans_id name;;
  unique_add _new_parent set_new_parent trans_id parent;;
  mret trans_id.

(** [parent] is [None] when the caller passes Python's [None]. *)
Definition adjust_path (name : string) (parent : option string)
    (trans_id : string) : TT unit :=
  match parent with
  | None => raise (ValueError "Parent trans-id may not be None")
  | Some parent =>
      t ← get;
      if bool_decide (Some trans_id = _new_root t) then raise CantMoveRoot
      else
        modify (λ t, set_new_name (<[trans_id := name]> (_new_name t)) t);;
        modify (λ t, set_new_parent (<[trans_id := parent]> (_new_parent t)) t)
  end.

Definition cancel_deletion (trans_id : string) : TT unit :=
  t ← get;
  if bool_decide (trans_id ∈ _removed_contents t) then
    modify (set_removed_contents (_removed_contents t ∖ {[trans_id]}))
  else raise (KeyError trans_id).

Definition set_executability (executability : option bool)
    (trans_id : string) : TT unit :=
  match executability with
  | None =>
      t ← get;
      match _new_executability t !! trans_id with
      | Some _ =>
          modify (set_new_executability (delete trans_id (_new_executability t)))
      | None => raise (KeyError trans_id)
      end
  | Some e => unique_add _new_executability set_new_executability trans_id e
  end.

Definition set_tree_reference (revision_id trans_id : string) : TT unit :=
  unique_add _new_reference_revision set_new_reference_revision
    trans_id revision_id.

Definition unversion_file (trans_id : string) : TT unit :=
  modify (λ t, set_removed_id (_removed_id t ∪ {[trans_id]}) t).

Definition tree_path (t : TreeTransform) (trans_id : string) : option string :=
  _tree_id_paths t !! trans_id.

Definition final_parent (trans_id : string) : TT string :=
  t ← get;
  match _new_parent t !! trans_id with
  | Some parent => mret parent
  | None => get_tree_parent trans_id
  end.

Definition path_changed (t : TreeTransform) (trans_id : string) : bool :=
  bool_decide (is_Some (_new_name t !! trans_id))
  || bool_decide (is_Some (_new_parent t !! trans_id)).

Definition new_contents (t : TreeTransform) (trans_id : string) : bool :=
  bool_decide (is_Some (_new_contents t !! trans_id)).

(** ** What the concrete transforms provide

    [TreeTransform] is an abstract base: these methods raise
    [NotImplementedError] there, or are only called on [tt] by the functions
    of this file and defined by the transforms that inherit from it.  A
    [file_id] is a string or [None]. *)
Class TransformImpl : Type := {
  tree_kind : string → TT (option string);
  find_conflicts : TT (list raw_conflict);
  version_file : string → option string → TT unit;
  cancel_versioning : string → TT unit;
  new_orphan : string → string → TT unit;
  create_directory : string → TT unit;
  new_directory : string → string → option string → TT string;
  _get_potential_orphans : string → TT (option (list string));
  final_file_id : string → TT (option string);
  inactive_file_id : string → TT (option string);
  trans_id_file_id : option string → TT string
}.

(** The part of a [Tree] that [conflict_pass] reads from [path_tree]:
    [path2id('')], and the [(parent_id, name)] of the entry that
    [iter_entries_by_dir(specific_files=[id2path(file_id)])] yields first. *)
Record PathTree : Type := mkPathTree {
  path2id_root : option string;
  entry_of : option string → result (option string * string)
}.

(** The default orphan policy of [orphaning_registry]. *)
Definition refuse_orphan (orphan_id parent_id : string) : TT unit :=
  raise (OrphaningForbidden "never").

Section Transform.
Context `{Impl : TransformImpl}.

(** [tt.root] *)
Definition root (t : TreeTransform) : option string := _new_root t.

(** [NoFinalPath.__init__] asks the transform for the file id and for the
    root before the exception is raised. *)
Definition final_name (trans_id : string) : TT string :=
  t ← get;
  match _new_name t !! trans_id with
  | Some name => mret name
  | None =>
      match _tree_id_paths t !! trans_id with
      | Some path => mret (os_path.basename path)
      | None =>
          file_id ← final_file_id trans_id;
          t ← get;
          raise (NoFinalPath trans_id file_id (root t))
      end
  end.

Definition delete_contents (trans_id : string) : TT unit :=
  kind ← tree_kind trans_id;
  match kind with
  | Some _ =>
      modify (λ t, set_removed_contents (_removed_contents t ∪ {[trans_id]}) t)
  | None => mret ()
  end.

Definition delete_versioned (trans_id : string) : TT unit :=
  delete_contents trans_id;;
  unversion_file trans_id.

Definition final_kind (trans_id : string) : TT (option string) :=
  t ← get;
  match _new_contents t !! trans_id with
  | Some kind => mret (Some kind)
  | None =>
      if bool_decide (trans_id ∈ _removed_contents t) then mret None
      else tree_kind trans_id
  end.

(** [by_parent]: the dictionary is filled from the items of [_new_parent]
    and then from the keys of [_tree_id_paths] (a copy taken before the
    loop); both are walked in the order of [map_to_list]. *)
Definition by_parent : TT (gmap string (gset string)) :=
  t ← get;
  let items := map_to_list (_new_parent t) in
  tree_items ← for_each (map_to_list (_tree_id_paths t)).*1 []
    (λ trans_id acc,
       parent_id ← final_parent trans_id;
       mret (acc ++ [(trans_id, parent_id)]));
  mret (foldl (λ (by_parent : gmap string (gset string)) '(trans_id, parent_id),
                 <[parent_id := default ∅ (by_parent !! parent_id) ∪ {[trans_id]}]>
                   by_parent)
              ∅ (items ++ tree_items)).

Definition _reparent_transform_children (old_parent : string)
    (new_parent : option string) : TT (gset string) :=
  by_parent ← by_parent;
  match by_parent !! old_parent with
  | None => raise (KeyError old_parent)
  | Some children =>
      for_each (elements children) ()
        (λ child _,
           name ← final_name child;
           adjust_path name new_parent child);;
      mret children
  end.

(** *** resolve_conflicts *)

(** The [for n in range(10)] loop with [n] passes left; [conflicts] is the
    variable the loop assigns, read by the [raise] after the loop. *)
Fixpoint resolve_loop (pass_func : list raw_conflict → TT (gset raw_conflict))
    (n : nat) (new_conflicts : gset raw_conflict) (conflicts : list raw_conflict)
    : TT (gset raw_conflict) :=
  match n with
  | 0 => raise (MalformedTransform conflicts)
  | S n' =>
      conflicts ← find_conflicts;
      if bool_decide (length conflicts = 0) then mret new_conflicts
      else
        added ← pass_func conflicts;
        resolve_loop pass_func n' (new_conflicts ∪ added) conflicts
  end.

(** *** conflict_pass, one branch of the [if] chain at a time *)

Definition pass_duplicate_id (c_type : string) (conflict : list string)
    (new_conflicts : gset raw_conflict) : TT (gset raw_conflict) :=
  c1 ← item conflict 1;
  unversion_file c1;;
  c1 ← item conflict 1;
  c2 ← item conflict 2;
  mret (new_conflicts ∪ {[ [c_type; "Unversioned existing file"; c1; c2] ]}).

Definition pass_duplicate (c_type : string) (conflict : list string)
    (new_conflicts : gset raw_conflict) : TT (gset raw_conflict) :=
  c1 ← item conflict 1;
  final_parent ← final_parent c1;
  t ← get;
  '(existing_file, new_file) ←
    (if path_changed t c1 then
       c2 ← item conflict 2; mret (c2, c1)
     else
       c2 ← item conflict 2; mret (c1, c2));
  name ← final_name existing_file;
  let new_name := name +:+ ".moved" in
  adjust_path new_name (Some final_parent) existing_file;;
  mret (new_conflicts
          ∪ {[ [c_type; "Moved existing file to"; existing_file; new_file] ]}).

(** [while not tt.path_changed(cur): cur = tt.final_parent(cur)] *)
Fixpoint while_unchanged (fuel : nat) (cur : string) : TT string :=
  match fuel with
  | 0 => raise Diverges
  | S fuel' =>
      t ← get;
      if path_changed t cur then mret cur
      else cur ← final_parent cur; while_unchanged fuel' cur
  end.

Definition pass_parent_loop (fuel : nat) (c_type : string)
    (conflict : list string) (new_conflicts : gset raw_conflict)
    : TT (gset raw_conflict) :=
  cur ← item conflict 1;
  cur ← while_unchanged fuel cur;
  parent ← final_parent cur;
  let new_conflicts :=
    new_conflicts ∪ {[ [c_type; "Cancelled move"; cur; parent] ]} in
  name ← final_name cur;
  tree_parent ← get_tree_parent cur;
  adjust_path name (Some tree_parent) cur;;
  mret new_conflicts.

(** The [for o in orphans] loop; the result is [cancel_deletion]. *)
Fixpoint orphan_loop (trans_id : string) (orphans : list string) : TT bool :=
  match orphans with
  | [] => mret false
  | o :: orphans' =>
      refused ← try_except (new_orphan o trans_id;; mret false)
                   is_OrphaningError (λ _, mret true);
      if refused : bool then mret true else orphan_loop trans_id orphans'
  end.

Definition pass_missing_parent (path_tree : option PathTree)
    (c_type : string) (conflict : list string)
    (new_conflicts : gset raw_conflict) : TT (gset raw_conflict) :=
  trans_id ← item conflict 1;
  t ← get;
  if bool_decide (trans_id ∈ _removed_contents t) then
    orphans ← _get_potential_orphans trans_id;
    cancel ←
      match orphans with
      | Some (o :: orphans') => orphan_loop trans_id (o :: orphans')
      | _ => mret true
      end;
    if cancel : bool then
      cancel_deletion trans_id;;
      mret (new_conflicts ∪ {[ ["deleting parent"; "Not deleting"; trans_id] ]})
    else mret new_conflicts
  else
    '(create, new_conflicts) ←
      try_except (final_name trans_id;; mret (true, new_conflicts))
        is_NoFinalPath
        (λ _,
           match path_tree with
           | None => mret (true, new_conflicts)
           | Some path_tree =>
               file_id ← final_file_id trans_id;
               file_id ← match file_id with
                         | None => inactive_file_id trans_id
                         | Some f => mret (Some f)
                         end;
               match entry_of path_tree file_id with
               | Raise e => raise e
               | Ok (None, _) =>
                   t ← get;
                   moved ← _reparent_transform_children trans_id (root t);
                   mret (false,
                         new_conflicts
                           ∪ list_to_set ((λ child, [c_type; "Moved to root"; child])
                                            <$> elements moved))
               | Ok (Some parent_id, name) =>
                   parent_trans_id ← trans_id_file_id (Some parent_id);
                   adjust_path name (Some parent_trans_id) trans_id;;
                   mret (true, new_conflicts)
               end
           end);
    if create : bool then
      create_directory trans_id;;
      mret (new_conflicts ∪ {[ [c_type; "Created directory"; trans_id] ]})
    else mret new_conflicts.

Definition pass_unversioned_parent (path_tree : option PathTree)
    (c_type : string) (conflict : list string)
    (new_conflicts : gset raw_conflict) : TT (gset raw_conflict) :=
  c1 ← item conflict 1;
  file_id ← inactive_file_id c1;
  let is_root :=
    match path_tree with
    | Some path_tree => bool_decide (path2id_root path_tree = file_id)
    | None => false
    end in
  if is_root then mret new_conflicts
  else
    c1 ← item conflict 1;
    version_file c1 file_id;;
    mret (new_conflicts ∪ {[ [c_type; "Versioned directory"; c1] ]}).

Definition pass_non_directory_parent (c_type : string)
    (conflict : list string) (new_conflicts : gset raw_conflict)
    : TT (gset raw_conflict) :=
  parent_id ← item conflict 1;
  parent_parent ← final_parent parent_id;
  parent_name ← final_name parent_id;
  parent_file_id ← final_file_id parent_id;
  new_parent_id ← new_directory (parent_name +:+ ".new") parent_parent
                    parent_file_id;
  _reparent_transform_children parent_id (Some new_parent_id);;
  (if bool_decide (is_Some parent_file_id) then unversion_file parent_id
   else mret ());;
  mret (new_conflicts ∪ {[ [c_type; "Created directory"; new_parent_id] ]}).

Definition pass_versioning_no_contents (conflict : list string)
    (new_conflicts : gset raw_conflict) : TT (gset raw_conflict) :=
  c1 ← item conflict 1;
  cancel_versioning c1;;
  mret new_conflicts.

(** The body of the [for c_type, conflict in ...] loop.  [fuel] bounds the
    [while] loop of the 'parent loop' branch. *)
Definition conflict_pass_body (path_tree : option PathTree) (fuel : nat)
    (conflict : list string) (new_conflicts : gset raw_conflict)
    : TT (gset raw_conflict) :=
  c_type ← item conflict 0;
  if String.eqb c_type "duplicate id" then
    pass_duplicate_id c_type conflict new_conflicts
  else if String.eqb c_type "duplicate" then
    pass_duplicate c_type conflict new_conflicts
  else if String.eqb c_type "parent loop" then
    pass_parent_loop fuel c_type conflict new_conflicts
  else if String.eqb c_type "missing parent" then
    pass_missing_parent path_tree c_type conflict new_conflicts
  else if String.eqb c_type "unversioned parent" then
    pass_unversioned_parent path_tree c_type conflict new_conflicts
  else if String.eqb c_type "non-directory parent" then
    pass_non_directory_parent c_type conflict new_conflicts
  else if String.eqb c_type "versioning no contents" then
    pass_versioning_no_contents conflict new_conflicts
  else mret new_conflicts.

Definition conflict_pass (path_tree : option PathTree) (fuel : nat)
    (conflicts : list raw_conflict) : TT (gset raw_conflict) :=
  for_each conflicts ∅ (conflict_pass_body path_tree fuel).

(** [pass_func=None] selects [conflict_pass] with no [path_tree]. *)
Definition resolve_conflicts (fuel : nat)
    (pass_func : option (list raw_conflict → TT (gset raw_conflict)))
    : TT (gset raw_conflict) :=
  let pass_func := default (conflict_pass None fuel) pass_func in
  resolve_loop pass_func 10 ∅ [].

(** [passes pass_func k t acc last t'] : starting from [t], [k] passes in a
    row found conflicts and repaired them; [acc] gathers what the repairs
    recorded, [last] is what the detector reported on the [k]-th pass and
    [t'] is the transform after its repair. *)
Inductive passes (pass_func : list raw_conflict → TT (gset raw_conflict))
    (t : TreeTransform)
    : nat → gset raw_conflict → list raw_conflict → TreeTransform → Prop :=
| passes_O : passes pass_func t 0 ∅ [] t
| passes_S k acc last t1 conflicts t2 added t3 :
    passes pass_func t k acc last t1 →
    find_conflicts t1 = (Ok conflicts, t2) →
    conflicts ≠ [] →
    pass_func conflicts t2 = (Ok added, t3) →
    passes pass_func t (S k) (acc ∪ added) conflicts t3.

End Transform.

(** The transform once [trans_id] has been staged at [name] under [parent]:
    what a call of [adjust_path] that raises nothing leaves behind. *)
Definition with_path (trans_id name parent : string) (t : TreeTransform)
    : TreeTransform :=
  set_new_parent (<[trans_id := parent]> (_new_parent t))
    (set_new_name (<[trans_id := name]> (_new_name t)) t).

(** [unchanged_chain t c n t' cur] : the walk of the 'parent loop' repair,
    started at [c] in [t], visits [n] ids whose path was not changed, each
    the final parent of the one before, and then reaches [cur], the first id
    whose path was changed; [t'] is the transform after the walk (looking up a
    tree parent may assign it a trans_id). *)
Inductive unchanged_chain
    : TreeTransform → string → nat → TreeTransform → string → Prop :=
| chain_stop t cur :
    path_changed t cur = true → unchanged_chain t cur 0 t cur
| chain_step t c parent t1 n t2 cur :
    path_changed t c = false →
    final_parent c t = (Ok parent, t1) →
    unchanged_chain t1 parent n t2 cur →
    unchanged_chain t c (S n) t2 cur.

(** Following final parents from [trans_id] leads to [ROOT_PARENT] within
    [fuel] steps: [trans_id] is on no parent loop, and has no ancestor on
    one. *)
Fixpoint reaches_root_parent (fuel : nat) (trans_id : string) : TT bool :=
  if bool_decide (trans_id = ROOT_PARENT) then mret true
  else
    match fuel with
    | 0 => mret false
    | S fuel' =>
        parent ← final_parent trans_id;
        reaches_root_parent fuel' parent
    end.

(** ** The rename journal *)

(** The file system is the destination tree's: [os.rename] and
    [osutils.delete_any] either fail with an [OSError], leaving the disk as
    it was, or return the new disk.  Every call of [os.rename] is logged with
    its outcome, so that what the journal records can be compared with what
    was done. *)
Record World (FS : Type) : Type := mkWorld {
  disk : FS;
  syscalls : list (string * string * bool)
}.
Arguments mkWorld {FS} disk syscalls.

#[export] Instance World_eq_dec {FS : Type} `{EqDecision FS}
    : EqDecision (World FS).
Proof. solve_decision. Defined.
Arguments disk {FS} w.
Arguments syscalls {FS} w.

(** [None] is the value [rollback] and [apply_deletions] leave in both
    attributes. *)
Record _FileMover : Type := mkFileMover {
  past_renames : option (list (string * string));
  pending_deletions : option (list string)
}.

#[export] Instance FileMover_eq_dec : EqDecision _FileMover.
Proof. solve_decision. Defined.

(** One request to the journal during [apply]. *)
Inductive mover_op : Type :=
| Rename (from_ to : string)
| PreDelete (from_ to : string).

Definition op_from (op : mover_op) : string :=
  match op with Rename from_ _ | PreDelete from_ _ => from_ end.

Definition op_to (op : mover_op) : string :=
  match op with Rename _ to | PreDelete _ to => to end.

Section FileMover.
Context {FS : Type}.
Variable os_rename : string → string → FS → OSError + FS.
Variable delete_any : string → FS → OSError + FS.

Abbreviation MV := (M (World FS * _FileMover)).

(** [_FileMover.__init__] *)
Definition new_mover : _FileMover := mkFileMover (Some []) (Some []).

(** [os.rename(src, dst)], logged. *)
Definition sys_rename (src dst : string) (w : World FS)
    : (OSError + unit) * World FS :=
  match os_rename src dst (disk w) with
  | inl e => (inl e, mkWorld (disk w) (syscalls w ++ [(src, dst, false)]))
  | inr fs => (inr (), mkWorld fs (syscalls w ++ [(src, dst, true)]))
  end.

(** The exception [rename] raises for an [OSError]. *)
Definition rename_error (from_ to : string) (e : OSError) : exn :=
  if bool_decide (errno e = EEXIST) || bool_decide (errno e = ENOTEMPTY)
  then FileExists to (strerror e)
  else TransformRenameFailed from_ to (strerror e) (errno e).

Definition rename (from_ to : string) : MV unit :=
  λ '(w, m),
    match sys_rename from_ to w with
    | (inl e, w') => (Raise (rename_error from_ to e), (w', m))
    | (inr _, w') =>
        match past_renames m with
        | Some l =>
            (Ok (), (w', mkFileMover (Some (l ++ [(from_, to)]))
                                     (pending_deletions m)))
        | None => (Raise AttributeError, (w', m))
        end
    end.

(** [self.pending_deletions.append(to)] *)
Definition append_pending (to : string) : MV unit :=
  λ '(w, m),
    match pending_deletions m with
    | Some l => (Ok (), (w, mkFileMover (past_renames m) (Some (l ++ [to]))))
    | None => (Raise AttributeError, (w, m))
    end.

Definition pre_delete (from_ to : string) : MV unit :=
  rename from_ to;;
  append_pending to.

(** The body of the loop of [rollback]. *)
Definition undo_rename (from_ to : string) : MV unit :=
  λ '(w, m),
    match sys_rename to from_ w with
    | (inl e, w') =>
        (Raise (TransformRenameFailed to from_ (strerror e) (errno e)), (w', m))
    | (inr _, w') => (Ok (), (w', m))
    end.

Definition rollback : MV unit :=
  '(_, m) ← get;
  match past_renames m with
  | None => raise TypeError
  | Some l =>
      for_each (rev l) () (λ '(from_, to) _, undo_rename from_ to);;
      modify (λ '(w, _), (w, mkFileMover None None))
  end.

(** [delete_any(path)]; its [OSError] is not caught. *)
Definition delete_path (path : string) : MV unit :=
  λ '(w, m),
    match delete_any path (disk w) with
    | inl e => (Raise (UncaughtOSError e), (w, m))
    | inr fs => (Ok (), (mkWorld fs (syscalls w), m))
    end.

Definition apply_deletions : MV unit :=
  '(_, m) ← get;
  match pending_deletions m with
  | None => raise TypeError
  | Some l =>
      for_each l () (λ path _, delete_path path);;
      modify (λ '(w, _), (w, mkFileMover None None))
  end.

(** The disk after the renames of [l], made in order, when each of them
    succeeds. *)
Fixpoint replay (l : list (string * string)) (fs : FS) : option FS :=
  match l with
  | [] => Some fs
  | (from_, to) :: l' =>
      match os_rename from_ to fs with
      | inl _ => None
      | inr fs' => replay l' fs'
      end
  end.

Definition run_op (op : mover_op) : MV unit :=
  match op with
  | Rename from_ to => rename from_ to
  | PreDelete from_ to => pre_delete from_ to
  end.

(** A caller that makes the requests [ops] one after the other and goes on
    after a request that raised. *)
Fixpoint run_calls (ops : list mover_op) (s : World FS * _FileMover)
    : World FS * _FileMover :=
  match ops with
  | [] => s
  | op :: ops' => run_calls ops' (run_op op s).2
  end.

(** Modelled from the spec: [apply] itself is not in transform.py.  The
    specification (4.6, 5 and 7) has it make its renames through one journal,
    unwind the journal when any of them fails and then pass the failure on
    to the caller, and execute the staged deletions only after every rename
    has succeeded.  [ops] are the renames the staging graph asks for, in
    the order [apply] makes them. *)
Definition apply (ops : list mover_op) : M (World FS) unit :=
  λ w,
    match for_each ops () (λ op _, run_op op) (w, new_mover) with
    | (Ok _, s) => let '(r, (w', _)) := apply_deletions s in (r, w')
    | (Raise e, s) =>
        match rollback s with
        | (Ok _, (w', _)) => (Raise e, w')
        | (Raise e', (w', _)) => (Raise e', w')
        end
    end.

End FileMover.

(** The OS renames that succeeded, in the order they were made. *)
Definition performed (log : list (string * string * bool))
    : list (string * string) :=
  omap (λ '(src, dst, ok), if ok : bool then Some (src, dst) else None) log.

(** What the journal holds is what the log says was done. *)
Definition journal_exact {FS : Type} (s : World FS * _FileMover) : Prop :=
  past_renames s.2 = Some (performed (syscalls s.1)).

(** The call [os.rename(to, from_)] that undoes [(from_, to)]. *)
Definition undo_of (r : string * string) : string * string := (r.2, r.1).

(** A file system for the examples: a map from paths to contents, where a
    rename needs its source to exist and its destination to be free. *)
Definition map_rename (src dst : string) (fs : gmap string string)
    : OSError + gmap string string :=
  match fs !! src with
  | None => inl (mkOSError 2 "No such file or directory")
  | Some v =>
      match fs !! dst with
      | Some _ => inl (mkOSError EEXIST "File exists")
      | None => inr (<[dst := v]> (delete src fs))
      end
  end.

Definition map_delete_any (path : string) (fs : gmap string string)
    : OSError + gmap string string :=
  match fs !! path with
  | None => inl (mkOSError 2 "No such file or directory")
  | Some _ => inr (delete path fs)
  end.

(** A disk with the files [a], [b] and [c], and nothing logged yet. *)
Definition world_abc : World (gmap string string) :=
  mkWorld (<["a" := "A"]> (<["b" := "B"]> (<["c" := "C"]> ∅))) [].

(** ** Two implementations of the interface, for the examples *)

(** The abstract base class itself: what it declares raises
    [NotImplementedError], what it does not declare is a missing attribute. *)
Definition base_impl : TransformImpl := {|
  tree_kind _ := raise NotImplementedError;
  find_conflicts := raise NotImplementedError;
  version_file _ _ := raise NotImplementedError;
  cancel_versioning _ := raise NotImplementedError;
  new_orphan _ _ := raise NotImplementedError;
  create_directory _ := raise NotImplementedError;
  new_directory _ _ _ := raise NotImplementedError;
  _get_potential_orphans _ := raise AttributeError;
  final_file_id _ := raise AttributeError;
  inactive_file_id _ := raise AttributeError;
  trans_id_file_id _ := raise AttributeError
|}.

(** The 'duplicate' conflicts among the ids of the list: two ids staged with
    the same name under the same parent. *)
Fixpoint duplicate_pairs (t : TreeTransform) (ids : list string)
    : list raw_conflict :=
  match ids with
  | [] => []
  | a :: ids' =>
      ((λ b, ["duplicate"; a; b]) <$>
         filter (λ b, _new_name t !! a = _new_name t !! b
                      ∧ _new_parent t !! a = _new_parent t !! b) ids')
      ++ duplicate_pairs t ids'
  end.

(** A small transform around an orphan policy: every id with a tree path is
    a directory of the tree, the detector reports the duplicate names among
    the staged ids, nothing is versioned, and every child of a directory whose
    contents stay is a potential orphan. *)
Definition sample_impl_with (policy : string → string → TT unit)
    : TransformImpl := {|
  tree_kind trans_id :=
    t ← get;
    mret (match _tree_id_paths t !! trans_id with
          | Some _ => Some "directory"
          | None => None
          end);
  find_conflicts := t ← get; mret (duplicate_pairs t (map_to_list (_new_name t)).*1);
  version_file _ _ := raise NotImplementedError;
  cancel_versioning _ := raise NotImplementedError;
  new_orphan := policy;
  create_directory _ := raise NotImplementedError;
  new_directory _ _ _ := raise NotImplementedError;
  _get_potential_orphans dir_id :=
    children ← by_parent;
    match children !! dir_id with
    | None => raise (KeyError dir_id)
    | Some ids => t ← get; mret (Some (elements (ids ∖ _removed_contents t)))
    end;
  final_file_id _ := mret None;
  inactive_file_id _ := mret None;
  trans_id_file_id _ := raise NotImplementedError
|}.

(** With the default policy. *)
Definition sample_impl : TransformImpl := sample_impl_with refuse_orphan.

(** A registered policy that fails while it makes room for the orphan, with
    an exception that is not an [OrphaningError]. *)
Definition faulty_orphan (orphan_id parent_id : string) : TT unit :=
  raise (UncaughtOSError (mkOSError 28 "No space left on device")).

Definition faulty_impl : TransformImpl := sample_impl_with faulty_orphan.

(** A tree with the root and the directories [a] and [b], whose trans_ids are
    [new-0], [new-1] and [new-2]. *)
Definition tree_ab : TreeTransform :=
  snd ((trans_id_tree_path "";;
        trans_id_tree_path "a";;
        trans_id_tree_path "b" : TT string) (init (Some "new-0"))).

(** [a] renamed to [x] and moved into [b], [b] moved into [a]. *)
Definition swapped_ab : TreeTransform :=
  snd ((adjust_path "x" (Some "new-2") "new-1";;
        adjust_path "b" (Some "new-1") "new-2" : TT unit) tree_ab).

(** [swapped_ab] in a tree that also has [a/k], whose trans_id is [new-3]. *)
Definition swapped_ab_child : TreeTransform :=
  snd (trans_id_tree_path "a/k" swapped_ab).

(** [tree_ab] with the file [a/k], whose trans_id is [new-3], and the
    contents of [a] scheduled for deletion. *)
Definition deleting_a : TreeTransform :=
  snd ((trans_id_tree_path "a/k";;
        @delete_contents sample_impl "new-1" : TT unit) tree_ab).

(** Two new files [f] created in the root of [tree_ab]. *)
Definition two_new_files : TreeTransform :=
  snd ((create_path "f" "new-0";;
        create_path "f" "new-0" : TT string) tree_ab).

(** [a] and [b] both renamed to [c], in place. *)
Definition both_moved : TreeTransform :=
  snd ((adjust_path "c" (Some "new-0") "new-1";;
        adjust_path "c" (Some "new-0") "new-2" : TT unit) tree_ab).

(** A new file [a] created in the root of [tree_ab], next to the [a] of the
    tree; its trans_id is [new-3]. *)
Definition new_over_a : TreeTransform :=
  snd (create_path "a" "new-0" tree_ab).

(** A resolver that repairs nothing. *)
Definition idle_pass (conflicts : list raw_conflict) : TT (gset raw_conflict) :=
  mret ∅.

(** ** More of transform.py *)

(** *** Ids handed out *)

(** [trans_id] is one of the ids [_assign_id] has handed out so far. *)
Definition allocated (t : TreeTransform) (trans_id : string) : Prop :=
  ∃ k, (k < _id_number t)%nat ∧ trans_id = "new-" +:+ pretty k.

(** The two tree maps are inverse of each other and hold only ids that were
    handed out. *)
Definition tree_ids_consistent (t : TreeTransform) : Prop :=
  (∀ path trans_id,
     _tree_path_ids t !! path = Some trans_id
     ↔ _tree_id_paths t !! trans_id = Some path)
  ∧ (∀ trans_id, is_Some (_tree_id_paths t !! trans_id) → allocated t trans_id).

(** Every id that has a name or a parent staged was handed out. *)
Definition staged_ids_allocated (t : TreeTransform) : Prop :=
  ∀ trans_id,
    is_Some (_new_name t !! trans_id) ∨ is_Some (_new_parent t !! trans_id) →
    allocated t trans_id.

(** The step of the loop that fills the dictionary of [by_parent]. *)
Definition by_parent_step (by_parent : gmap string (gset string))
    (item : string * string) : gmap string (gset string) :=
  let '(trans_id, parent_id) := item in
  <[parent_id := default ∅ (by_parent !! parent_id) ∪ {[trans_id]}]> by_parent.

(** *** joinpath, FinalPaths and move_orphan

    [osutils.pathjoin] and [_available_backup_name] are not in transform.py:
    they are parameters. *)

Section Paths.
Context `{Impl : TransformImpl}.
Variable pathjoin : string → string → string.
Variable _available_backup_name : string → string → TT string.

(** [joinpath(parent, child)]; [parent] may be [None]. *)
Definition joinpath (parent : option string) (child : string) : string :=
  match parent with
  | None => child
  | Some parent =>
      if bool_decide (parent = "") then child else pathjoin parent child
  end.

(** [move_orphan]: the value returned is the text handed to
    [trace.warning]. *)
Definition move_orphan (orphan_id parent_id : string) : TT string :=
  let orphan_dir_basename := "brz-orphans" in
  od_id ← trans_id_tree_path orphan_dir_basename;
  kind ← final_kind od_id;
  (if bool_decide (kind = None) then create_directory od_id else mret ());;
  t ← get;
  match _tree_id_paths t !! parent_id with
  | None => raise (KeyError parent_id)
  | Some parent_path =>
      actual_name ← final_name orphan_id;
      new_name ← _available_backup_name actual_name od_id;
      adjust_path new_name (Some od_id) orphan_id;;
      mret (joinpath (Some parent_path) actual_name
              +:+ " has been orphaned in " +:+ orphan_dir_basename)
  end.

(** A [FinalPaths] object is its memo [_known_paths]; the transform it
    refers to is the other half of the state, since looking up a final parent
    may assign a trans_id. *)
Abbreviation FP := (M (TreeTransform * gmap string string)).

(** A method of [self.transform]. *)
Definition on_transform {A} (m : TT A) : FP A :=
  λ '(t, known), let '(r, t') := m t in (r, (t', known)).

(** [_determine_path], given the [get_path] it calls for the parent. *)
Definition _determine_path (get_path : string → FP string)
    (trans_id : string) : FP string :=
  '(t, _) ← get;
  if bool_decide (Some trans_id = root t) || bool_decide (trans_id = ROOT_PARENT)
  then mret ""
  else
    name ← on_transform (final_name trans_id);
    parent_id ← on_transform (final_parent trans_id);
    '(t, _) ← get;
    if bool_decide (Some parent_id = root t) then mret name
    else
      parent_path ← get_path parent_id;
      mret (pathjoin parent_path name).

(** [get_path]; [fuel] bounds the depth of the recursion through
    [_determine_path]. *)
Fixpoint get_path (fuel : nat) (trans_id : string) : FP string :=
  '(_, known) ← get;
  match known !! trans_id with
  | Some path => mret path
  | None =>
      match fuel with
      | 0 => raise Diverges
      | S fuel' =>
          path ← _determine_path (get_path fuel') trans_id;
          modify (λ '(t, known), (t, <[trans_id := path]> known));;
          mret path
      end
  end.

Definition get_paths (fuel : nat) (trans_ids : list string)
    : FP (list (string * string)) :=
  for_each trans_ids []
    (λ t acc, path ← get_path fuel t; mret (acc ++ [(path, t)])).

End Paths.

(** *** resolve_checkout *)

Section Checkout.
Context `{Impl : TransformImpl}.

(** [resolve_checkout] ends either with the set it returns or with the
    [AssertionError(c_type)] it raises for a conflict that is not a
    'duplicate'; the second outcome is [inr c_type]. *)
Fixpoint resolve_checkout_loop (divert : gset string)
    (conflicts : list raw_conflict) (new_conflicts : gset raw_conflict)
    : TT (gset raw_conflict + string) :=
  match conflicts with
  | [] => mret (inl new_conflicts)
  | conflict :: conflicts' =>
      c_type ← item conflict 0;
      if negb (String.eqb c_type "duplicate") then mret (inr c_type)
      else
        c1 ← item conflict 1;
        t ← get;
        '(new_file, old_file) ←
          (if new_contents t c1 then
             new_file ← item conflict 1; old_file ← item conflict 2;
             mret (new_file, old_file)
           else
             new_file ← item conflict 2; old_file ← item conflict 1;
             mret (new_file, old_file));
        final_parent ← final_parent old_file;
        new_conflicts ←
          (if bool_decide (new_file ∈ divert) then
             name ← final_name old_file;
             adjust_path (name +:+ ".diverted") (Some final_parent) new_file;;
             mret (new_conflicts
                     ∪ {[ [c_type; "Diverted to"; new_file; old_file] ]})
           else
             name ← final_name old_file;
             adjust_path (name +:+ ".moved") (Some final_parent) old_file;;
             mret (new_conflicts
                     ∪ {[ [c_type; "Moved existing file to"; old_file; new_file] ]}));
        resolve_checkout_loop divert conflicts' new_conflicts
  end.

Definition resolve_checkout (conflicts : list raw_conflict)
    (divert : gset string) : TT (gset raw_conflict + string) :=
  resolve_checkout_loop divert conflicts ∅.

End Checkout.


(** The conflict types that [conflict_pass] has a branch for. *)
Definition repaired_types : list string :=
  ["duplicate id"; "duplicate"; "parent loop"; "missing parent";
   "unversioned parent"; "non-directory parent"; "versioning no contents"].

(** ** More of the rename journal *)

(** The destinations that the requests [ops] mark for deletion. *)
Definition marked (ops : list mover_op) : list string :=
  omap (λ op, match op with
              | PreDelete _ to => Some to
              | Rename _ _ => None
              end) ops.

(** The renames that the requests [ops] ask for. *)
Definition requested (ops : list mover_op) : list (string * string) :=
  (λ op, (op_from op, op_to op)) <$> ops.

Section Deletions.
Context {FS : Type}.
Variable delete_any : string → FS → OSError + FS.

(** The disk after the deletions of [l], made in order, when each of them
    succeeds. *)
Fixpoint delete_all (l : list string) (fs : FS) : option FS :=
  match l with
  | [] => Some fs
  | path :: l' =>
      match delete_any path fs with
      | inl _ => None
      | inr fs' => delete_all l' fs'
      end
  end.

End Deletions.

(** ** More implementations and transforms, for the examples *)

Definition set_new_contents (v : gmap string string) (t : TreeTransform)
    : TreeTransform :=
  mkTreeTransform (_id_number t) (_tree_path_ids t) (_tree_id_paths t)
    (_new_name t) (_new_parent t) v (_removed_contents t)
    (_new_executability t) (_new_reference_revision t) (_removed_id t)
    (_done t) (_new_root t).

(** Joins two paths with a slash. *)
Definition slash_join (parent child : string) : string :=
  parent +:+ "/" +:+ child.

(** A chooser of backup names that finds every name free. *)
Definition same_name (name dir_id : string) : TT string := mret name.

(** A transform around an orphan policy in which directories can be
    created: every tree path but [brz-orphans] is a directory of the tree, a
    created directory is staged in [_new_contents], versioning is recorded
    nowhere, the inactive file id of an id is the id with [id-] in front, and
    the detector reports that the [a] of the tree would be overwritten, which
    no repair handles. *)
Definition dir_impl_with (policy : string → string → TT unit)
    : TransformImpl := {|
  tree_kind trans_id :=
    t ← get;
    mret (match _tree_id_paths t !! trans_id with
          | Some path =>
              if bool_decide (path = "brz-orphans") then None
              else Some "directory"
          | None => None
          end);
  find_conflicts := mret [["overwrite"; "new-1"; "a"]];
  version_file _ _ := mret ();
  cancel_versioning _ := mret ();
  new_orphan := policy;
  create_directory trans_id :=
    modify (λ t, set_new_contents
                   (<[trans_id := "directory"]> (_new_contents t)) t);
  new_directory name parent_id _ :=
    trans_id ← create_path name parent_id;
    modify (λ t, set_new_contents
                   (<[trans_id := "directory"]> (_new_contents t)) t);;
    mret trans_id;
  _get_potential_orphans dir_id :=
    children ← by_parent;
    match children !! dir_id with
    | None => raise (KeyError dir_id)
    | Some ids => t ← get; mret (Some (elements (ids ∖ _removed_contents t)))
    end;
  final_file_id _ := mret None;
  inactive_file_id trans_id := mret (Some ("id-" +:+ trans_id));
  trans_id_file_id _ := raise NotImplementedError
|}.

(** With the default policy. *)
Definition dir_impl : TransformImpl := dir_impl_with refuse_orphan.

(** The policy registered as 'move'. *)
Definition move_policy (orphan_id parent_id : string) : TT unit :=
  @move_orphan dir_impl slash_join same_name orphan_id parent_id;;
  mret ().

Definition moving_impl : TransformImpl := dir_impl_with move_policy.

(** [tree_ab] with the file [a/k], whose trans_id is [new-3]. *)
Definition tree_ab_k : TreeTransform :=
  snd (trans_id_tree_path "a/k" tree_ab).

(** [tree_ab_k] with the contents of [a] and of [a/k] scheduled for
    deletion. *)
Definition deleting_a_k : TreeTransform :=
  set_removed_contents {[ "new-1"; "new-3" ]} tree_ab_k.

(** [tree_ab_k] with [a/k] moved under [new-9], an id that has neither a
    name nor a tree path. *)
Definition under_new_9 : TreeTransform :=
  snd (adjust_path "k" (Some "new-9") "new-3" tree_ab_k).

(** Another tree, whose root has the file id [id-new-9] and whose other
    entries are directly under the root. *)
Definition other_tree : PathTree :=
  mkPathTree (Some "id-new-9")
    (λ file_id,
       if bool_decide (file_id = Some "id-new-9") then Ok (None, "")
       else Ok (Some "id-new-9", "d")).

(** * Properties *)

(** Unfolds the plumbing of the state-and-exception monad. *)
Ltac run :=
  cbv [mbind M_bind mret M_ret get modify raise item try_except].

Arguments adjust_path : simpl never.
Arguments final_name : simpl never.
Arguments final_parent : simpl never.
Arguments get_tree_parent : simpl never.
Arguments trans_id_tree_path : simpl never.
Arguments cancel_deletion : simpl never.
Arguments path_changed : simpl never.
Arguments orphan_loop : simpl never.
Arguments sys_rename : simpl never.
Arguments rename : simpl never.
Arguments pre_delete : simpl never.
Arguments rollback : simpl never.

(** ** Loops *)

Lemma for_each_single {S A B} (x : A) (acc : B) (body : A → B → M S B) s :
  for_each [x] acc body s = body x acc s.
Proof. simpl. run. destruct (body x acc s) as [[b|e] s']; reflexivity. Qed.

Lemma for_each_app {S A B} (l1 l2 : list A) (acc : B)
    (body : A → B → M S B) (s : S) :
  for_each (l1 ++ l2) acc body s
    = match for_each l1 acc body s with
      | (Ok acc', s') => for_each l2 acc' body s'
      | (Raise e, s') => (Raise e, s')
      end.
Proof.
  revert acc s. induction l1 as [|x l1 IH]; intros acc s; simpl; [done|].
  run. destruct (body x acc s) as [[acc'|e] s']; [apply IH|done].
Qed.

(** ** The staging graph *)

Section StagingFacts.
Context `{Impl : TransformImpl}.

(** Looking up a tree parent may assign a trans_id to it; nothing of the
    staging graph changes, nor does the root. *)
Lemma trans_id_tree_path_graph path t :
  staging_graph (trans_id_tree_path path t).2 = staging_graph t
  ∧ _new_root (trans_id_tree_path path t).2 = _new_root t.
Proof.
  unfold trans_id_tree_path, _assign_id. run.
  destruct (_tree_path_ids t !! canonical_path path); done.
Qed.

Lemma get_tree_parent_graph trans_id t :
  staging_graph (get_tree_parent trans_id t).2 = staging_graph t
  ∧ _new_root (get_tree_parent trans_id t).2 = _new_root t.
Proof.
  unfold get_tree_parent. run.
  destruct (_tree_id_paths t !! trans_id) as [path|]; [|done].
  case_bool_decide; [done|]. apply trans_id_tree_path_graph.
Qed.

Lemma final_parent_graph trans_id t :
  staging_graph (final_parent trans_id t).2 = staging_graph t
  ∧ _new_root (final_parent trans_id t).2 = _new_root t.
Proof.
  unfold final_parent. run.
  destruct (_new_parent t !! trans_id); [done|]. apply get_tree_parent_graph.
Qed.

Lemma final_parent_staged x p s :
  _new_parent s !! x = Some p → final_parent x s = (Ok p, s).
Proof. intros H. unfold final_parent. run. by rewrite H. Qed.

Lemma path_changed_graph t t' trans_id :
  staging_graph t' = staging_graph t →
  path_changed t' trans_id = path_changed t trans_id.
Proof.
  unfold staging_graph, path_changed. intros [= -> -> _ _ _ _]. reflexivity.
Qed.

(** [final_name] changes nothing when it returns a name. *)
Lemma final_name_ok trans_id name t :
  (final_name trans_id t).1 = Ok name →
  final_name trans_id t = (Ok name, t).
Proof.
  unfold final_name. run.
  destruct (_new_name t !! trans_id); [by intros [= ->]|].
  destruct (_tree_id_paths t !! trans_id); [by intros [= ->]|].
  by destruct (final_file_id trans_id t) as [[file_id|e] t'].
Qed.

Lemma final_name_staged trans_id name t :
  _new_name t !! trans_id = Some name →
  final_name trans_id t = (Ok name, t).
Proof. intros H. unfold final_name. run. by rewrite H. Qed.

Lemma adjust_path_ok name parent trans_id t :
  _new_root t ≠ Some trans_id →
  adjust_path name (Some parent) trans_id t
    = (Ok (), with_path trans_id name parent t).
Proof.
  intros Hroot. unfold adjust_path. run.
  rewrite bool_decide_eq_false_2 by congruence. reflexivity.
Qed.

(** Claim C8.  [final_kind trans_id] is computed and never stored: it is
    the kind staged in [_new_contents] when the id has an entry there;
    otherwise [None] when the id is in [_removed_contents]; otherwise
    whatever [tree_kind] reports for the id.  In the first two cases the
    transform is left exactly as it was; in the third it is left as
    [tree_kind] leaves it. *)
Theorem final_kind_computed (trans_id : string) (t : TreeTransform) :
  (∀ kind, _new_contents t !! trans_id = Some kind →
     final_kind trans_id t = (Ok (Some kind), t))
  ∧ (_new_contents t !! trans_id = None →
     trans_id ∈ _removed_contents t →
     final_kind trans_id t = (Ok None, t))
  ∧ (_new_contents t !! trans_id = None →
     trans_id ∉ _removed_contents t →
     final_kind trans_id t = tree_kind trans_id t).
Proof.
  unfold final_kind. run. repeat split.
  - intros kind ->. reflexivity.
  - intros -> Hin. rewrite bool_decide_eq_true_2 by done. reflexivity.
  - intros -> Hin. rewrite bool_decide_eq_false_2 by done. reflexivity.
Qed.

(** Claim C9.  For every name and trans_id, [adjust_path] called with
    the parent [None] raises [ValueError] and leaves the transform as it
    was.  That check comes before the check of the root: with the root's
    trans_id and the parent [None] the error is still [ValueError], and
    with the root's trans_id and a parent it is [CantMoveRoot], again with
    the transform left as it was. *)
Theorem adjust_path_guards (name trans_id : string) (t : TreeTransform) :
  adjust_path name None trans_id t
    = (Raise (ValueError "Parent trans-id may not be None"), t)
  ∧ (∀ root_id parent, _new_root t = Some root_id →
       adjust_path name None root_id t
         = (Raise (ValueError "Parent trans-id may not be None"), t)
       ∧ adjust_path name (Some parent) root_id t = (Raise CantMoveRoot, t)).
Proof.
  split; [reflexivity|]. intros root_id parent Hroot. split; [reflexivity|].
  unfold adjust_path. run. rewrite bool_decide_eq_true_2 by done. reflexivity.
Qed.

End StagingFacts.

(** ** The resolver *)

Section ResolveFacts.
Context `{Impl : TransformImpl}.

Lemma conflict_pass_single path_tree fuel (conflict : list string) t :
  conflict_pass path_tree fuel [conflict] t
    = conflict_pass_body path_tree fuel conflict ∅ t.
Proof. apply for_each_single. Qed.

(** A call on one conflict, from what the body of the loop does on it. *)
Lemma conflict_pass_alone path_tree fuel (conflict recorded : list string)
    (t t' : TreeTransform) :
  (∀ new_conflicts,
     conflict_pass_body path_tree fuel conflict new_conflicts t
       = (Ok (new_conflicts ∪ {[recorded]}), t')) →
  conflict_pass path_tree fuel [conflict] t = (Ok {[recorded]}, t').
Proof.
  intros H. rewrite conflict_pass_single, H. by rewrite (left_id_L ∅ (∪)).
Qed.

Lemma resolve_loop_passes pass_func t k acc last t1 :
  passes pass_func t k acc last t1 →
  ∀ n, resolve_loop pass_func (k + n) ∅ [] t
       = resolve_loop pass_func n acc last t1.
Proof.
  induction 1 as [|k acc last t1 conflicts t2 added t3 _ IH Hfind Hne Hpass];
    intros n; [reflexivity|].
  replace (S k + n) with (k + S n) by lia. rewrite IH. simpl. run.
  rewrite Hfind. destruct conflicts as [|c cs]; [done|]. simpl.
  rewrite Hpass. reflexivity.
Qed.

(** Claim C6.  When the detector reports no conflict on the transform,
    [resolve_conflicts] returns the empty set of repair descriptions
    whatever the repair function is (it is never called), and it leaves
    the transform as the single call of the detector left it: every field
    of the staging graph (new names, new parents, new contents, removed
    contents, executability, versioning) is as it was before the call. *)
Theorem resolve_conflicts_no_conflicts fuel pass_func (t t1 : TreeTransform) :
  find_conflicts t = (Ok [], t1) →
  staging_graph t1 = staging_graph t →
  resolve_conflicts fuel pass_func t = (Ok ∅, t1)
  ∧ staging_graph (resolve_conflicts fuel pass_func t).2 = staging_graph t.
Proof.
  intros Hfind Hsame.
  assert (resolve_conflicts fuel pass_func t = (Ok ∅, t1)) as ->; [|done].
  unfold resolve_conflicts. simpl. run. rewrite Hfind. reflexivity.
Qed.

(** Claim C2.  [resolve_conflicts] makes at most ten passes, each of
    which calls [find_conflicts] first.  If, after [k < 10] passes that
    found conflicts and repaired them, the detector reports none, the
    result is the set of repair descriptions gathered by these [k] passes.
    If the detector reports conflicts on each of the ten passes, the
    tenth repair is still made, nothing is tried after it, and
    [MalformedTransform] is raised with the list of conflicts that the
    detector reported on the tenth pass. *)
Theorem resolve_conflicts_ten_passes fuel pass_func (t : TreeTransform) :
  let pass := default (conflict_pass None fuel) pass_func in
  (∀ k acc last t1 t2,
     k < 10 →
     passes pass t k acc last t1 →
     find_conflicts t1 = (Ok [], t2) →
     resolve_conflicts fuel pass_func t = (Ok acc, t2))
  ∧ (∀ acc last t9 conflicts t' added t10,
       passes pass t 9 acc last t9 →
       find_conflicts t9 = (Ok conflicts, t') →
       conflicts ≠ [] →
       pass conflicts t' = (Ok added, t10) →
       resolve_conflicts fuel pass_func t
         = (Raise (MalformedTransform conflicts), t10)).
Proof.
  intros pass. split.
  - intros k acc last t1 t2 Hk Hpasses Hfind. unfold resolve_conflicts.
    fold pass. replace 10 with (k + S (9 - k)) by lia.
    rewrite (resolve_loop_passes _ _ _ _ _ _ Hpasses). simpl. run.
    rewrite Hfind. reflexivity.
  - intros acc last t9 conflicts t' added t10 Hpasses Hfind Hne Hpass.
    pose proof (passes_S _ _ _ _ _ _ _ _ _ _ Hpasses Hfind Hne Hpass) as H10.
    unfold resolve_conflicts. fold pass.
    apply (resolve_loop_passes _ _ _ _ _ _ H10 0).
Qed.

(** Claim C5, amended.  For a 'duplicate id' conflict reported as
    [('duplicate id', c1, c2)], [conflict_pass] unversions [c1], the
    first id of the reported pair (the element at index 1 of the tuple),
    and records [('duplicate id', 'Unversioned existing file', c1, c2)];
    the versioning of the other id, [c2], is left as it was.  This is what
    the iteration of the loop on the conflict does whatever was recorded
    before it, and what a call on the conflict alone does. *)
Theorem conflict_pass_duplicate_id path_tree fuel (c1 c2 : string)
    (t : TreeTransform) :
  let recorded := ["duplicate id"; "Unversioned existing file"; c1; c2] in
  let t' := set_removed_id (_removed_id t ∪ {[c1]}) t in
  (∀ new_conflicts,
     conflict_pass_body path_tree fuel ["duplicate id"; c1; c2] new_conflicts t
       = (Ok (new_conflicts ∪ {[recorded]}), t'))
  ∧ conflict_pass path_tree fuel [["duplicate id"; c1; c2]] t
    = (Ok {[recorded]}, t')
  ∧ c1 ∈ _removed_id t'
  ∧ (c2 ≠ c1 → (c2 ∈ _removed_id t' ↔ c2 ∈ _removed_id t)).
Proof.
  intros recorded t'.
  assert (∀ new_conflicts,
            conflict_pass_body path_tree fuel ["duplicate id"; c1; c2]
              new_conflicts t
            = (Ok (new_conflicts ∪ {[recorded]}), t')) as Hbody.
  { intros new_conflicts. unfold conflict_pass_body. simpl. run. simpl.
    unfold pass_duplicate_id, unversion_file. run. reflexivity. }
  split; [exact Hbody|]. split; [by apply conflict_pass_alone|].
  subst t'. simpl. split; [|intros Hne];
    rewrite elem_of_union, elem_of_singleton; tauto.
Qed.

(** Claim C3, amended.  For a 'duplicate' conflict reported as
    [('duplicate', c1, c2)], whose ids share a final parent and a final
    name, the id treated as the existing file is [c2] when the path of [c1]
    was explicitly changed and [c1] otherwise.  So the id whose path was
    not changed is the existing one when exactly one of the two was
    changed; the first-reported id is when neither was; and the
    second-reported id is when both were.  The existing file is staged at
    its final name followed by [.moved], under the final parent of [c1]
    (the parent the pair shares); the other id keeps its name; and the
    pass records [('duplicate', 'Moved existing file to', existing, other)].
    The three hypotheses say that no call of the branch raises. *)
Theorem conflict_pass_duplicate_name path_tree fuel (c1 c2 parent name : string)
    (t t1 : TreeTransform) :
  let existing_file := if path_changed t c1 then c2 else c1 in
  let new_file := if path_changed t c1 then c1 else c2 in
  let recorded :=
    ["duplicate"; "Moved existing file to"; existing_file; new_file] in
  let t' := with_path existing_file (name +:+ ".moved") parent t1 in
  final_parent c1 t = (Ok parent, t1) →
  (final_name existing_file t1).1 = Ok name →
  _new_root t ≠ Some existing_file →
  (∀ new_conflicts,
     conflict_pass_body path_tree fuel ["duplicate"; c1; c2] new_conflicts t
       = (Ok (new_conflicts ∪ {[recorded]}), t'))
  ∧ conflict_pass path_tree fuel [["duplicate"; c1; c2]] t
    = (Ok {[recorded]}, t')
  ∧ (final_name existing_file t').1 = Ok (name +:+ ".moved")
  ∧ (final_parent existing_file t').1 = Ok parent
  ∧ (c1 ≠ c2 → ∀ kept, (final_name new_file t1).1 = Ok kept →
                   (final_name new_file t').1 = Ok kept)
  ∧ (path_changed t c1 = false → existing_file = c1)
  ∧ (path_changed t c1 = true → existing_file = c2).
Proof.
  intros existing_file new_file recorded t' Hparent Hname Hroot.
  assert (staging_graph t1 = staging_graph t ∧ _new_root t1 = _new_root t)
    as [Hgraph Hroot1].
  { pose proof (final_parent_graph c1 t) as H. by rewrite Hparent in H. }
  assert (∀ new_conflicts,
            conflict_pass_body path_tree fuel ["duplicate"; c1; c2]
              new_conflicts t
            = (Ok (new_conflicts ∪ {[recorded]}), t')) as Hbody.
  { intros new_conflicts. unfold conflict_pass_body. simpl. run. simpl.
    unfold pass_duplicate. run. simpl. rewrite Hparent.
    rewrite (path_changed_graph _ _ _ Hgraph).
    pose proof (final_name_ok _ _ _ Hname) as Hname'.
    subst recorded existing_file new_file t'.
    destruct (path_changed t c1); simpl; rewrite Hname';
      (rewrite adjust_path_ok by congruence); reflexivity. }
  split; [exact Hbody|]. split; [by apply conflict_pass_alone|].
  split; [|split; [|split; [|split]]].
  - subst t'. by rewrite (final_name_staged _ (name +:+ ".moved"));
      [|apply lookup_insert_eq].
  - subst t'. apply (f_equal fst (final_parent_staged _ parent _
                                    (lookup_insert_eq _ _ _))).
  - intros Hne kept. subst t'. unfold final_name, with_path. run. simpl.
    rewrite lookup_insert_ne
      by (subst existing_file new_file; destruct (path_changed t c1);
          congruence).
    destruct (_new_name t1 !! new_file); [done|].
    destruct (_tree_id_paths t1 !! new_file); [done|].
    by destruct (final_file_id new_file t1) as [[file_id|e] t''].
  - subst existing_file. by intros ->.
  - subst existing_file. by intros ->.
Qed.

End ResolveFacts.

(** ** Parent loops *)

Section ParentLoopFacts.
Context `{Impl : TransformImpl}.

Lemma unchanged_chain_end t c n t' cur :
  unchanged_chain t c n t' cur →
  staging_graph t' = staging_graph t
  ∧ _new_root t' = _new_root t
  ∧ path_changed t cur = true.
Proof.
  induction 1 as [t cur Hch|t c parent t1 n t2 cur Hun Hpar _ IH]; [done|].
  destruct IH as (Hg & Hr & Hch).
  pose proof (final_parent_graph c t) as [Hg1 Hr1]. rewrite Hpar in Hg1, Hr1.
  simpl in *. split; [congruence|]. split; [congruence|].
  by rewrite <- (path_changed_graph _ _ _ Hg1).
Qed.

(** With more fuel than the walk is long, the loop ends where the walk
    does. *)
Lemma while_unchanged_chain t c n t' cur :
  unchanged_chain t c n t' cur →
  ∀ fuel, n < fuel → while_unchanged fuel c t = (Ok cur, t').
Proof.
  induction 1 as [t cur Hch|t c parent t1 n t2 cur Hun Hpar _ IH];
    intros [|fuel] Hlt; try lia; simpl; run.
  - by rewrite Hch.
  - rewrite Hun, Hpar. apply IH. lia.
Qed.

(** Fuel only bounds the walk: once the loop has an outcome, more fuel
    gives the same outcome. *)
Lemma while_unchanged_more_fuel fuel c t r t' :
  while_unchanged fuel c t = (r, t') →
  r ≠ Raise Diverges →
  ∀ fuel', (fuel ≤ fuel')%nat → while_unchanged fuel' c t = (r, t').
Proof.
  revert c t. induction fuel as [|fuel IH]; intros c t; simpl.
  - unfold raise. by intros [= <- <-].
  - intros Hrun Hr [|fuel'] Hle; [lia|]. simpl. revert Hrun. run.
    destruct (path_changed t c); [done|].
    destruct (final_parent c t) as [[parent|e] t1]; [|done].
    intros Hrun. apply (IH _ _ Hrun Hr). lia.
Qed.

Lemma conflict_pass_body_parent_loop path_tree fuel new_conflicts
    (c : string) (n : nat) (t t1 t2 t3 : TreeTransform)
    (cur parent name tree_parent : string) :
  unchanged_chain t c n t1 cur →
  n < fuel →
  final_parent cur t1 = (Ok parent, t2) →
  (final_name cur t2).1 = Ok name →
  get_tree_parent cur t2 = (Ok tree_parent, t3) →
  _new_root t ≠ Some cur →
  conflict_pass_body path_tree fuel ["parent loop"; c] new_conflicts t
    = (Ok (new_conflicts
             ∪ {[ ["parent loop"; "Cancelled move"; cur; parent] ]}),
       with_path cur name tree_parent t3).
Proof.
  intros Hchain Hfuel Hparent Hname Htree Hroot.
  destruct (unchanged_chain_end _ _ _ _ _ Hchain) as (Hg1 & Hr1 & _).
  pose proof (final_parent_graph cur t1) as [Hg2 Hr2].
  rewrite Hparent in Hg2, Hr2. simpl in Hg2, Hr2.
  pose proof (get_tree_parent_graph cur t2) as [Hg3 Hr3].
  rewrite Htree in Hg3, Hr3. simpl in Hg3, Hr3.
  pose proof (final_name_ok _ _ _ Hname) as Hname'.
  unfold conflict_pass_body. simpl. run. simpl.
  unfold pass_parent_loop. run. simpl.
  rewrite (while_unchanged_chain _ _ _ _ _ Hchain fuel Hfuel).
  rewrite Hparent, Hname', Htree.
  rewrite adjust_path_ok by congruence. reflexivity.
Qed.

(** Staging [a] elsewhere does not change what the final parent of another
    id is. *)
Lemma final_parent_with_path_ne (a name p x : string) (s : TreeTransform) :
  x ≠ a →
  final_parent x (with_path a name p s)
    = ((final_parent x s).1, with_path a name p (final_parent x s).2).
Proof.
  intros Hne. unfold final_parent, get_tree_parent, trans_id_tree_path,
    _assign_id, with_path, set_new_parent, set_new_name. run. simpl.
  rewrite lookup_insert_ne by done.
  destruct (_new_parent s !! x); [done|]. simpl.
  destruct (_tree_id_paths s !! x) as [path|]; [|done].
  case_bool_decide; [done|]. simpl.
  destruct (_tree_path_ids s !! canonical_path (os_path.dirname path)); done.
Qed.

Lemma reaches_root_parent_step n x p s s' :
  x ≠ ROOT_PARENT →
  final_parent x s = (Ok p, s') →
  reaches_root_parent (S n) x s = reaches_root_parent n p s'.
Proof.
  intros Hx Hp. simpl. rewrite bool_decide_eq_false_2 by done. run.
  by rewrite Hp.
Qed.

(** From an id on a loop of two, [ROOT_PARENT] is never reached. *)
Lemma loop_never_reaches_root_parent (a b : string) :
  a ≠ ROOT_PARENT → b ≠ ROOT_PARENT →
  ∀ n s x,
    _new_parent s !! a = Some b → _new_parent s !! b = Some a →
    x = a ∨ x = b →
    reaches_root_parent n x s = (Ok false, s).
Proof.
  intros Ha Hb. induction n as [|n IH]; intros s x Hab Hba Hx; simpl.
  - rewrite bool_decide_eq_false_2 by (destruct Hx; congruence). done.
  - rewrite bool_decide_eq_false_2 by (destruct Hx; congruence). run.
    destruct Hx as [-> | ->].
    + rewrite (final_parent_staged _ _ _ Hab). apply IH; auto.
    + rewrite (final_parent_staged _ _ _ Hba). apply IH; auto.
Qed.

(** A walk that reaches [ROOT_PARENT] while [a] and [b] are on a loop does
    not meet them, so it is the same walk once [a] is staged elsewhere. *)
Lemma reaches_root_parent_with_path (a b name p : string) :
  a ≠ ROOT_PARENT → b ≠ ROOT_PARENT →
  ∀ n s x,
    _new_parent s !! a = Some b → _new_parent s !! b = Some a →
    (reaches_root_parent n x s).1 = Ok true →
    (reaches_root_parent n x (with_path a name p s)).1 = Ok true.
Proof.
  intros Ha Hb. induction n as [|n IH]; intros s x Hab Hba; simpl.
  - case_bool_decide; done.
  - case_bool_decide; [done|]. run.
    destruct (decide (x = a)) as [->|Hne].
    + rewrite (final_parent_staged _ _ _ Hab).
      rewrite (loop_never_reaches_root_parent a b Ha Hb n s b Hab Hba);
        [done|auto].
    + rewrite (final_parent_with_path_ne _ _ _ _ _ Hne).
      pose proof (final_parent_graph x s) as [Hg _].
      destruct (final_parent x s) as [[parent|e] s1]; simpl in *; [|done].
      apply IH; unfold staging_graph in Hg; congruence.
Qed.

Lemma swap_resolved n (a b name tree_parent : string) (t t1 : TreeTransform) :
  a ≠ b → a ≠ ROOT_PARENT → b ≠ ROOT_PARENT →
  _new_parent t !! a = Some b →
  _new_parent t !! b = Some a →
  get_tree_parent a t = (Ok tree_parent, t1) →
  (reaches_root_parent n tree_parent t1).1 = Ok true →
  let t' := with_path a name tree_parent t1 in
  (reaches_root_parent (S n) a t').1 = Ok true
  ∧ (reaches_root_parent (S (S n)) b t').1 = Ok true.
Proof.
  intros Hab Ha Hb Hpa Hpb Htree Hreach t'.
  pose proof (get_tree_parent_graph a t) as [Hg _]. rewrite Htree in Hg.
  simpl in Hg. unfold staging_graph in Hg.
  assert (_new_parent t1 = _new_parent t) as Hp1 by congruence.
  assert (final_parent a t' = (Ok tree_parent, t')) as Hfa.
  { apply final_parent_staged. subst t'. unfold with_path. simpl.
    apply lookup_insert_eq. }
  assert (final_parent b t' = (Ok a, t')) as Hfb.
  { apply final_parent_staged. subst t'. unfold with_path. simpl.
    rewrite lookup_insert_ne by done. congruence. }
  assert ((reaches_root_parent (S n) a t').1 = Ok true) as Hra.
  { rewrite (reaches_root_parent_step _ _ _ _ _ Ha Hfa).
    apply (reaches_root_parent_with_path a b); auto; congruence. }
  split; [done|]. by rewrite (reaches_root_parent_step _ _ _ _ _ Hb Hfb).
Qed.

(** Claim C4, amended.  For a 'parent loop' conflict on [c],
    [conflict_pass] follows final parents from [c] as long as the id it
    visits has an unchanged path, stops at [cur], the first id whose path
    was explicitly changed, and stages [cur] again under its original
    tree parent; the name staged for [cur] is its current final name, not
    its name in the tree.  It records
    [('parent loop', 'Cancelled move', cur, parent)] with the final parent
    [cur] had.  In particular, when two ids [a] and [b] are each the
    final parent of the other and the original tree parent of [a] leads to
    [ROOT_PARENT], one pass on the conflict reported for [a] reverts [a],
    whose path was explicitly changed, and after it both [a] and [b] lead
    to [ROOT_PARENT]: the loop is gone.  [fuel] bounds the walk; any
    amount above the length of the walk gives the result. *)
Theorem conflict_pass_parent_loop path_tree fuel :
  (∀ (c : string) (n : nat) (t t1 t2 t3 : TreeTransform)
     (cur parent name tree_parent : string),
     unchanged_chain t c n t1 cur →
     n < fuel →
     final_parent cur t1 = (Ok parent, t2) →
     (final_name cur t2).1 = Ok name →
     get_tree_parent cur t2 = (Ok tree_parent, t3) →
     _new_root t ≠ Some cur →
     let recorded := ["parent loop"; "Cancelled move"; cur; parent] in
     let t' := with_path cur name tree_parent t3 in
     (∀ new_conflicts,
        conflict_pass_body path_tree fuel ["parent loop"; c] new_conflicts t
          = (Ok (new_conflicts ∪ {[recorded]}), t'))
     ∧ conflict_pass path_tree fuel [["parent loop"; c]] t
       = (Ok {[recorded]}, t')
     ∧ path_changed t cur = true
     ∧ (final_name cur t').1 = Ok name
     ∧ (final_parent cur t').1 = Ok tree_parent)
  ∧ (∀ (n : nat) (a b name tree_parent : string) (t t1 : TreeTransform),
       a ≠ b → a ≠ ROOT_PARENT → b ≠ ROOT_PARENT →
       _new_parent t !! a = Some b →
       _new_parent t !! b = Some a →
       _new_root t ≠ Some a →
       (final_name a t).1 = Ok name →
       get_tree_parent a t = (Ok tree_parent, t1) →
       (reaches_root_parent n tree_parent t1).1 = Ok true →
       0 < fuel →
       let t' := with_path a name tree_parent t1 in
       conflict_pass path_tree fuel [["parent loop"; a]] t
         = (Ok {[ ["parent loop"; "Cancelled move"; a; b] ]}, t')
       ∧ path_changed t a = true
       ∧ (reaches_root_parent (S n) a t').1 = Ok true
       ∧ (reaches_root_parent (S (S n)) b t').1 = Ok true).
Proof.
  split.
  - intros c n t t1 t2 t3 cur parent name tree_parent
      Hchain Hfuel Hparent Hname Htree Hroot recorded t'.
    assert (∀ new_conflicts,
              conflict_pass_body path_tree fuel ["parent loop"; c]
                new_conflicts t
              = (Ok (new_conflicts ∪ {[recorded]}), t')) as Hbody
      by (intros; by eapply conflict_pass_body_parent_loop).
    split; [exact Hbody|]. split; [by apply conflict_pass_alone|].
    split; [by destruct (unchanged_chain_end _ _ _ _ _ Hchain) as (_ & _ & ?)|].
    subst t'. split.
    + by rewrite (final_name_staged _ name); [|apply lookup_insert_eq].
    + apply (f_equal fst (final_parent_staged _ tree_parent _
                            (lookup_insert_eq _ _ _))).
  - intros n a b name tree_parent t t1
      Hab Ha Hb Hpa Hpb Hroot Hname Htree Hreach Hfuel t'.
    assert (path_changed t a = true) as Hch.
    { unfold path_changed. rewrite Hpa.
      rewrite (bool_decide_eq_true_2 (is_Some (Some b))) by eauto.
      apply orb_true_r. }
    split; [|split; [done|by apply (swap_resolved n a b name tree_parent t t1)]].
    apply conflict_pass_alone. intros new_conflicts.
    apply (conflict_pass_body_parent_loop path_tree fuel _ a 0 t t t t1);
      auto using chain_stop, final_parent_staged.
Qed.

End ParentLoopFacts.

(** ** Orphans *)

Section MissingParentFacts.
Context `{Impl : TransformImpl}.

(** The loop over the orphans when the policy raises for [o], the first
    one it does not place. *)
Lemma orphan_loop_raise trans_id (placed : list string) (o : string)
    (rest : list string) (e : exn) (t0 t1 t2 : TreeTransform) :
  for_each placed () (λ o _, new_orphan o trans_id) t0 = (Ok (), t1) →
  new_orphan o trans_id t1 = (Raise e, t2) →
  orphan_loop trans_id (placed ++ o :: rest) t0
    = (if is_OrphaningError e then Ok true else Raise e, t2).
Proof.
  revert t0. induction placed as [|p placed IH]; intros t0 Hplaced Hraise;
    simpl in *; unfold orphan_loop; fold orphan_loop; run.
  - injection Hplaced as <-. rewrite Hraise. by destruct (is_OrphaningError e).
  - revert Hplaced. run. destruct (new_orphan p trans_id t0) as [[[]|e'] t'];
      [|done]. intros Hplaced. by apply IH.
Qed.

Lemma pass_missing_parent_orphans path_tree new_conflicts
    (trans_id o : string) (orphans : list string) (t t0 : TreeTransform) :
  trans_id ∈ _removed_contents t →
  _get_potential_orphans trans_id t = (Ok (Some (o :: orphans)), t0) →
  conflict_pass_body path_tree 0 ["missing parent"; trans_id] new_conflicts t
  = match orphan_loop trans_id (o :: orphans) t0 with
    | (Ok true, t2) =>
        match cancel_deletion trans_id t2 with
        | (Ok _, t') =>
            (Ok (new_conflicts
                   ∪ {[ ["deleting parent"; "Not deleting"; trans_id] ]}), t')
        | (Raise e, t') => (Raise e, t')
        end
    | (Ok false, t2) => (Ok new_conflicts, t2)
    | (Raise e, t2) => (Raise e, t2)
    end.
Proof.
  intros Hdel Horphans. unfold conflict_pass_body. simpl. run. simpl.
  unfold pass_missing_parent. run. simpl.
  rewrite bool_decide_eq_true_2 by done. rewrite Horphans.
  destruct (orphan_loop trans_id (o :: orphans) t0) as [[[]|e] t2]; done.
Qed.

Lemma conflict_pass_body_fuel path_tree fuel (c_type : string)
    (conflict : list string) new_conflicts t :
  c_type ≠ "parent loop" →
  conflict_pass_body path_tree fuel (c_type :: conflict) new_conflicts t
    = conflict_pass_body path_tree 0 (c_type :: conflict) new_conflicts t.
Proof.
  intros Hne. unfold conflict_pass_body. run. simpl.
  destruct (String.eqb c_type "duplicate id"); [done|].
  destruct (String.eqb c_type "duplicate"); [done|].
  destruct (String.eqb_spec c_type "parent loop"); [congruence|done].
Qed.

(** Claim C7, amended.  For a 'missing parent' conflict whose parent id
    is scheduled for content deletion and has potential orphans, if the
    orphan policy places the first of them and then raises an
    [OrphaningError] ([OrphaningForbidden] included, which is what the
    default policy always raises) for one that is still present, the
    exception does not leave [conflict_pass]: the scheduled deletion is
    cancelled and [('deleting parent', 'Not deleting', trans_id)] is
    recorded.  An exception of another class is not caught: it leaves
    [conflict_pass], and the deletion stays as the policy left it. *)
Theorem conflict_pass_orphan_refused path_tree fuel (trans_id : string)
    (placed : list string) (o : string) (rest : list string) (e : exn)
    (t t0 t1 t2 : TreeTransform) :
  trans_id ∈ _removed_contents t →
  _get_potential_orphans trans_id t = (Ok (Some (placed ++ o :: rest)), t0) →
  for_each placed () (λ o _, new_orphan o trans_id) t0 = (Ok (), t1) →
  new_orphan o trans_id t1 = (Raise e, t2) →
  (is_OrphaningError e = true →
   trans_id ∈ _removed_contents t2 →
   let recorded := ["deleting parent"; "Not deleting"; trans_id] in
   let t' := set_removed_contents (_removed_contents t2 ∖ {[trans_id]}) t2 in
   (∀ new_conflicts,
      conflict_pass_body path_tree fuel ["missing parent"; trans_id]
        new_conflicts t
      = (Ok (new_conflicts ∪ {[recorded]}), t'))
   ∧ conflict_pass path_tree fuel [["missing parent"; trans_id]] t
     = (Ok {[recorded]}, t')
   ∧ trans_id ∉ _removed_contents t')
  ∧ (is_OrphaningError e = false →
     (∀ new_conflicts,
        conflict_pass_body path_tree fuel ["missing parent"; trans_id]
          new_conflicts t = (Raise e, t2))
     ∧ conflict_pass path_tree fuel [["missing parent"; trans_id]] t
       = (Raise e, t2)).
Proof.
  intros Hdel Horphans Hplaced Hraise.
  pose proof (orphan_loop_raise _ _ _ rest _ _ _ _ Hplaced Hraise) as Hloop.
  assert (∃ o' l, placed ++ o :: rest = o' :: l) as (o' & l & Hl)
    by (destruct placed; simpl; eauto).
  rewrite Hl in Horphans, Hloop.
  assert (∀ new_conflicts,
            conflict_pass_body path_tree fuel ["missing parent"; trans_id]
              new_conflicts t
            = match (if is_OrphaningError e then Ok true else Raise e, t2) with
              | (Ok true, t2) =>
                  match cancel_deletion trans_id t2 with
                  | (Ok _, t') =>
                      (Ok (new_conflicts
                             ∪ {[ ["deleting parent"; "Not deleting"; trans_id] ]}),
                       t')
                  | (Raise e, t') => (Raise e, t')
                  end
              | (Ok false, t2) => (Ok new_conflicts, t2)
              | (Raise e, t2) => (Raise e, t2)
              end) as Hbody.
  { intros new_conflicts. rewrite conflict_pass_body_fuel by done.
    by rewrite (pass_missing_parent_orphans _ _ _ _ _ _ _ Hdel Horphans), Hloop. }
  split.
  - intros He Hstill recorded t'. rewrite He in Hbody.
    assert (∀ new_conflicts,
              conflict_pass_body path_tree fuel ["missing parent"; trans_id]
                new_conflicts t
              = (Ok (new_conflicts ∪ {[recorded]}), t')) as Hbody'.
    { intros new_conflicts. rewrite Hbody. unfold cancel_deletion. run.
      by rewrite bool_decide_eq_true_2. }
    split; [exact Hbody'|]. split; [by apply conflict_pass_alone|].
    subst t'. simpl. rewrite elem_of_difference, elem_of_singleton. tauto.
  - intros He. rewrite He in Hbody. split; [exact Hbody|].
    by rewrite conflict_pass_single, Hbody.
Qed.

End MissingParentFacts.

(** ** The rename journal *)

Section FileMoverFacts.
Context {FS : Type}.
Variable os_rename : string → string → FS → OSError + FS.
Variable delete_any : string → FS → OSError + FS.

Lemma performed_app log1 log2 :
  performed (log1 ++ log2) = performed log1 ++ performed log2.
Proof. apply omap_app. Qed.

(** A rename that the file system refuses. *)
Lemma rename_refused from_ to (w : World FS) m err :
  os_rename from_ to (disk w) = inl err →
  rename os_rename from_ to (w, m)
    = (Raise (rename_error from_ to err),
       (mkWorld (disk w) (syscalls w ++ [(from_, to, false)]), m)).
Proof. intros H. unfold rename, sys_rename. by rewrite H. Qed.

Lemma rename_done from_ to (w : World FS) m fs l :
  os_rename from_ to (disk w) = inr fs →
  past_renames m = Some l →
  rename os_rename from_ to (w, m)
    = (Ok (), (mkWorld fs (syscalls w ++ [(from_, to, true)]),
               mkFileMover (Some (l ++ [(from_, to)])) (pending_deletions m))).
Proof. intros H Hl. unfold rename, sys_rename. by rewrite H, Hl. Qed.

Lemma pre_delete_refused from_ to (w : World FS) m err :
  os_rename from_ to (disk w) = inl err →
  pre_delete os_rename from_ to (w, m)
    = (Raise (rename_error from_ to err),
       (mkWorld (disk w) (syscalls w ++ [(from_, to, false)]), m)).
Proof.
  intros H. unfold pre_delete. run. by rewrite (rename_refused _ _ _ _ _ H).
Qed.

Lemma rename_journal_exact from_ to s :
  journal_exact s → journal_exact (rename os_rename from_ to s).2.
Proof.
  destruct s as [w m]. unfold journal_exact, rename, sys_rename. simpl.
  intros Hj. destruct (os_rename from_ to (disk w)) as [err|fs]; simpl.
  - rewrite performed_app. simpl. by rewrite app_nil_r.
  - rewrite Hj. simpl. by rewrite performed_app.
Qed.

Lemma run_op_journal_exact op s :
  journal_exact s → journal_exact (run_op os_rename op s).2.
Proof.
  intros Hj. destruct op as [from_ to|from_ to]; simpl;
    [by apply rename_journal_exact|].
  pose proof (rename_journal_exact from_ to s Hj) as Hren.
  unfold pre_delete. run.
  destruct (rename os_rename from_ to s) as [[[]|e] [w' m']]; [|exact Hren].
  unfold append_pending. destruct (pending_deletions m'); exact Hren.
Qed.

Lemma run_calls_journal_exact ops s :
  journal_exact s → journal_exact (run_calls os_rename ops s).
Proof.
  revert s. induction ops as [|op ops IH]; intros s Hj; simpl; [done|].
  apply IH. by apply run_op_journal_exact.
Qed.

Lemma undo_loop_attempts (l : list (string * string)) (s : World FS * _FileMover) :
  ∃ calls,
    syscalls (for_each l () (λ '(from_, to) _, undo_rename os_rename from_ to) s).2.1
      = syscalls s.1 ++ calls
    ∧ calls.*1 `prefix_of` (undo_of <$> l).
Proof.
  revert s. induction l as [|[from_ to] l IH]; intros [w m]; simpl.
  - exists []. split; [by rewrite app_nil_r|done].
  - run. unfold undo_rename at 1, sys_rename.
    destruct (os_rename to from_ (disk w)) as [err|fs]; simpl.
    + exists [(to, from_, false)]. split; [done|].
      apply (prefix_cons (to, from_)), prefix_nil.
    + destruct (IH (mkWorld fs (syscalls w ++ [(to, from_, true)]), m))
        as (calls & Hlog & Hpre).
      exists ((to, from_, true) :: calls). split.
      * rewrite Hlog. simpl. by rewrite <- app_assoc.
      * simpl. by apply prefix_cons.
Qed.

Lemma rollback_attempts (w : World FS) m l :
  past_renames m = Some l →
  ∃ calls,
    syscalls (rollback os_rename (w, m)).2.1 = syscalls w ++ calls
    ∧ calls.*1 `prefix_of` (undo_of <$> rev l).
Proof.
  intros Hl. unfold rollback. run. rewrite Hl.
  destruct (undo_loop_attempts (rev l) (w, m)) as (calls & Hlog & Hpre).
  exists calls. split; [|done].
  destruct (for_each (rev l) () _ (w, m)) as [[[]|e] [w' m']]; exact Hlog.
Qed.

(** Claim C10.  The journal records exactly the renames that succeeded.
    After any sequence of [rename] and [pre_delete] calls on a fresh
    journal, whichever of them raised, [past_renames] is the list of the
    [os.rename] calls that succeeded, in order.  A call whose [os.rename]
    fails raises [FileExists] or [TransformRenameFailed], leaves the disk
    as it was and appends nothing to the journal.  The [os.rename] calls a
    later [rollback] makes are the inverses of the recorded renames, last
    one first (all of them, or the first ones up to an inverse rename that
    fails): the rename that failed is never among them. *)
Theorem journal_records_performed_renames :
  (∀ ops (w : World FS),
     syscalls w = [] →
     journal_exact (run_calls os_rename ops (w, new_mover)))
  ∧ (∀ from_ to (w : World FS) m err,
       os_rename from_ to (disk w) = inl err →
       (rename_error from_ to err = FileExists to (strerror err)
        ∨ rename_error from_ to err
          = TransformRenameFailed from_ to (strerror err) (errno err))
       ∧ rename os_rename from_ to (w, m)
         = (Raise (rename_error from_ to err),
            (mkWorld (disk w) (syscalls w ++ [(from_, to, false)]), m))
       ∧ pre_delete os_rename from_ to (w, m)
         = (Raise (rename_error from_ to err),
            (mkWorld (disk w) (syscalls w ++ [(from_, to, false)]), m)))
  ∧ (∀ ops (w : World FS),
       syscalls w = [] →
       let s := run_calls os_rename ops (w, new_mover) in
       ∃ calls,
         syscalls (rollback os_rename s).2.1 = syscalls s.1 ++ calls
         ∧ calls.*1 `prefix_of` (undo_of <$> rev (performed (syscalls s.1)))).
Proof.
  assert (∀ ops (w : World FS), syscalls w = [] →
            journal_exact (run_calls os_rename ops (w, new_mover))) as Hinv.
  { intros ops w Hw. apply run_calls_journal_exact.
    unfold journal_exact. simpl. by rewrite Hw. }
  split; [exact Hinv|]. split.
  - intros from_ to w m err Hfail. split; [|split].
    + unfold rename_error. destruct (_ || _); auto.
    + by apply rename_refused.
    + by apply pre_delete_refused.
  - intros ops w Hw s. specialize (Hinv ops w Hw). fold s in Hinv.
    destruct s as [w' m']. by apply rollback_attempts.
Qed.

End FileMoverFacts.

(** ** Rollback *)

Section ApplyFacts.
Context {FS : Type}.
Variable os_rename : string → string → FS → OSError + FS.
Variable delete_any : string → FS → OSError + FS.

(** A successful rename is undone by the rename in the other direction. *)
Hypothesis os_rename_undo :
  ∀ a b fs fs', os_rename a b fs = inr fs' → os_rename b a fs' = inr fs.

Lemma run_ops_replay ops (w0 : World FS) m0 l0 s1 :
  for_each ops () (λ op _, run_op os_rename op) (w0, m0) = (Ok (), s1) →
  past_renames m0 = Some l0 →
  ∃ l, past_renames s1.2 = Some (l0 ++ l)
       ∧ replay os_rename l (disk w0) = Some (disk s1.1).
Proof.
  revert w0 m0 l0. induction ops as [|op ops IH]; intros w0 m0 l0; simpl.
  - intros [= <-] Hl0. exists []. by rewrite app_nil_r.
  - run. intros Hrun Hl0.
    assert (∃ fs, os_rename (op_from op) (op_to op) (disk w0) = inr fs
              ∧ ∃ pend, run_op os_rename op (w0, m0)
                = (Ok (), (mkWorld fs (syscalls w0 ++ [(op_from op, op_to op, true)]),
                           mkFileMover (Some (l0 ++ [(op_from op, op_to op)])) pend)))
      as (fs & Hfs & pend & Hop).
    { destruct (os_rename (op_from op) (op_to op) (disk w0)) as [err|fs] eqn:Hos.
      - exfalso. destruct op as [a b|a b]; simpl in *.
        + by rewrite (rename_refused _ _ _ _ _ _ Hos) in Hrun.
        + by rewrite (pre_delete_refused _ _ _ _ _ _ Hos) in Hrun.
      - exists fs. split; [done|].
        destruct op as [a b|a b]; simpl in *.
        + eexists. by apply rename_done.
        + unfold pre_delete in *. revert Hrun. run.
          rewrite (rename_done _ _ _ _ _ _ _ Hos Hl0). unfold append_pending.
          simpl. destruct (pending_deletions m0); [eauto|done]. }
    rewrite Hop in Hrun.
    destruct (IH _ _ (l0 ++ [(op_from op, op_to op)]) Hrun eq_refl)
      as (l & Hpast & Hreplay).
    exists ((op_from op, op_to op) :: l). split.
    + by rewrite Hpast, <- app_assoc.
    + simpl in *. by rewrite Hfs.
Qed.

Lemma undo_all l : ∀ fs fs' (w : World FS) m,
  replay os_rename l fs = Some fs' →
  disk w = fs' →
  for_each (rev l) () (λ '(from_, to) _, undo_rename os_rename from_ to) (w, m)
    = (Ok (), (mkWorld fs (syscalls w
                             ++ ((λ r, (undo_of r, true)) <$> rev l)), m)).
Proof.
  induction l as [|[a b] l IH]; intros fs fs' w m; simpl.
  - intros [= ->] <-. rewrite app_nil_r. by destruct w.
  - destruct (os_rename a b fs) as [err|fs1] eqn:Hos; [done|].
    intros Hreplay Hdisk. rewrite for_each_app.
    rewrite (IH _ _ _ _ Hreplay Hdisk). simpl. run.
    unfold undo_rename, sys_rename. simpl.
    rewrite (os_rename_undo _ _ _ _ Hos).
    by rewrite fmap_app, <- app_assoc.
Qed.

(** Claim C1.  On a file system where a successful rename is undone by
    the rename in the other direction: when the renames [before] of an
    [apply] succeed and the next one fails in [os.rename], [apply] undoes
    every rename made so far, last one first, each undo being logged as
    successful after the failed call, and only then raises: [FileExists]
    when the errno is [EEXIST] or [ENOTEMPTY], [TransformRenameFailed]
    otherwise.  The disk is then what it was before [apply]. *)
Theorem apply_rolls_back (before : list mover_op) (op : mover_op)
    (after : list mover_op) (w : World FS) (s1 : World FS * _FileMover)
    (err : OSError) :
  for_each before () (λ op _, run_op os_rename op) (w, new_mover)
    = (Ok (), s1) →
  os_rename (op_from op) (op_to op) (disk s1.1) = inl err →
  let e := rename_error (op_from op) (op_to op) err in
  ∃ l w',
    apply os_rename delete_any (before ++ op :: after) w = (Raise e, w')
    ∧ past_renames s1.2 = Some l
    ∧ syscalls w'
      = syscalls s1.1 ++ (op_from op, op_to op, false)
                         :: ((λ r, (undo_of r, true)) <$> rev l)
    ∧ disk w' = disk w
    ∧ (errno err = EEXIST ∨ errno err = ENOTEMPTY →
       e = FileExists (op_to op) (strerror err))
    ∧ (errno err ≠ EEXIST → errno err ≠ ENOTEMPTY →
       e = TransformRenameFailed (op_from op) (op_to op) (strerror err)
             (errno err)).
Proof.
  intros Hbefore Hfail e.
  destruct (run_ops_replay _ _ _ [] _ Hbefore eq_refl) as (l & Hpast & Hreplay).
  simpl in Hpast, Hreplay. destruct s1 as [w1 m1]. simpl in *.
  set (w2 := mkWorld (disk w1) (syscalls w1 ++ [(op_from op, op_to op, false)])).
  assert (run_op os_rename op (w1, m1) = (Raise e, (w2, m1))) as Hop.
  { destruct op as [a b|a b]; simpl in *;
      [by apply rename_refused|by apply pre_delete_refused]. }
  exists l, (mkWorld (disk w) (syscalls w2 ++ ((λ r, (undo_of r, true)) <$> rev l))).
  split; [|split; [done|split; [|split; [done|split]]]].
  - unfold apply. rewrite for_each_app, Hbefore. simpl. run. rewrite Hop.
    unfold rollback. run. rewrite Hpast.
    by rewrite (undo_all l (disk w) (disk w1) w2 m1 Hreplay eq_refl).
  - simpl. by rewrite <- app_assoc.
  - subst e. unfold rename_error. intros [-> | ->].
    + by rewrite bool_decide_eq_true_2.
    + rewrite (bool_decide_eq_true_2 (ENOTEMPTY = ENOTEMPTY)) by done.
      by rewrite orb_true_r.
  - subst e. unfold rename_error. intros H1 H2.
    by rewrite !bool_decide_eq_false_2.
Qed.

End ApplyFacts.

(** * Further properties of transform.py *)

(** ** Ids and tree paths *)

Lemma new_id_inj (a b : nat) :
  "new-" +:+ pretty a = "new-" +:+ pretty b → a = b.
Proof. simpl. intros [= H]. by apply (inj pretty). Qed.

Lemma next_id_not_allocated (t : TreeTransform) :
  ¬ allocated t ("new-" +:+ pretty (_id_number t)).
Proof. intros (k & Hk & Heq). apply new_id_inj in Heq. lia. Qed.

Lemma allocated_mono (t t' : TreeTransform) trans_id :
  (_id_number t ≤ _id_number t')%nat → allocated t trans_id → allocated t' trans_id.
Proof. intros Hle (k & Hk & ->). exists k. split; [lia|done]. Qed.

(** What [trans_id_tree_path] does in a consistent transform. *)
Lemma trans_id_tree_path_consistent path t :
  tree_ids_consistent t →
  ∃ trans_id t',
    trans_id_tree_path path t = (Ok trans_id, t')
    ∧ tree_ids_consistent t'
    ∧ _tree_id_paths t' !! trans_id = Some path
    ∧ (_id_number t ≤ _id_number t')%nat
    ∧ (∀ other p, _tree_id_paths t !! other = Some p →
                  _tree_id_paths t' !! other = Some p).
Proof.
  intros [Hinv Halloc]. unfold trans_id_tree_path, _assign_id, canonical_path. run.
  destruct (_tree_path_ids t !! path) as [trans_id|] eqn:Hpath.
  - exists trans_id, t. split; [done|]. split; [done|].
    split; [by apply Hinv|]. split; [lia|done].
  - set (new_id := "new-" +:+ pretty (_id_number t)).
    assert (_tree_id_paths t !! new_id = None) as Hfresh.
    { destruct (_tree_id_paths t !! new_id) eqn:Hid; [|done].
      destruct (next_id_not_allocated t). apply Halloc. fold new_id. eauto. }
    eexists new_id, _. split; [reflexivity|]. simpl.
    split; [|split; [apply lookup_insert_eq|split; [simpl; lia|]]].
    + split; simpl.
      * intros p i. destruct (decide (p = path)) as [->|Hp];
          destruct (decide (i = new_id)) as [->|Hi];
          rewrite ?lookup_insert_eq, ?lookup_insert_ne by done.
        -- done.
        -- split; [congruence|]. intros H. apply Hinv in H. congruence.
        -- split; [|congruence]. intros H. apply Hinv in H. congruence.
        -- apply Hinv.
      * intros i [p Hi]. destruct (decide (i = new_id)) as [->|Hne].
        -- exists (_id_number t). split; [simpl; lia|done].
        -- rewrite lookup_insert_ne in Hi by done.
           destruct (Halloc i) as (k & Hk & ->); [by rewrite Hi|].
           exists k. split; [simpl; lia|done].
    + intros other p Hother. rewrite lookup_insert_ne; [done|congruence].
Qed.

(** Property X1.  Binding a tree path to a trans_id is idempotent: the
    first call of [trans_id_tree_path] returns an id and records it for the
    path, and a second call for the same path returns the same id and
    changes nothing more. *)
Theorem trans_id_tree_path_idempotent (path : string) (t : TreeTransform) :
  ∃ trans_id t',
    trans_id_tree_path path t = (Ok trans_id, t')
    ∧ _tree_path_ids t' !! path = Some trans_id
    ∧ trans_id_tree_path path t' = (Ok trans_id, t').
Proof.
  unfold trans_id_tree_path, _assign_id, canonical_path. run.
  destruct (_tree_path_ids t !! path) as [trans_id|] eqn:Hpath.
  - exists trans_id, t. by rewrite Hpath.
  - eexists _, _. split; [reflexivity|]. simpl.
    rewrite lookup_insert_eq. done.
Qed.

(** Property X2.  In a transform whose tree maps are inverse of each other
    and hold only ids that were handed out (as they are after [__init__]),
    [trans_id_tree_path] never raises, the id it returns has the given path
    as its tree path, and the maps are again inverse of each other and hold
    only ids that were handed out. *)
Theorem trans_id_tree_path_round_trip (path : string) (t : TreeTransform) :
  tree_ids_consistent t →
  ∃ trans_id t',
    trans_id_tree_path path t = (Ok trans_id, t')
    ∧ tree_path t' trans_id = Some path
    ∧ _tree_path_ids t' !! path = Some trans_id
    ∧ tree_ids_consistent t'.
Proof.
  intros Hinv.
  destruct (trans_id_tree_path_consistent path t Hinv)
    as (trans_id & t' & Hrun & Hinv' & Hid & _ & _).
  exists trans_id, t'. split; [done|]. split; [done|]. split; [|done].
  by apply Hinv'.
Qed.

Lemma init_consistent root : tree_ids_consistent (init root).
Proof.
  split; simpl.
  - intros path trans_id. by rewrite !lookup_empty.
  - intros trans_id [p Hp]. by rewrite lookup_empty in Hp.
Qed.

(** Property X3.  In such a transform two tree paths that are given the
    same trans_id are the same path, and binding a second path leaves the
    tree path of the first id as it was. *)
Theorem trans_id_tree_path_injective (path1 path2 id1 id2 : string)
    (t t1 t2 : TreeTransform) :
  tree_ids_consistent t →
  trans_id_tree_path path1 t = (Ok id1, t1) →
  trans_id_tree_path path2 t1 = (Ok id2, t2) →
  tree_path t2 id1 = Some path1
  ∧ (id1 = id2 → path1 = path2).
Proof.
  intros Hinv Hrun1 Hrun2.
  destruct (trans_id_tree_path_consistent path1 t Hinv)
    as (i1 & s1 & Hrun1' & Hinv1 & Hid1 & _ & _).
  rewrite Hrun1 in Hrun1'. injection Hrun1' as <- <-.
  destruct (trans_id_tree_path_consistent path2 t1 Hinv1)
    as (i2 & s2 & Hrun2' & Hinv2 & Hid2 & _ & Hkept).
  rewrite Hrun2 in Hrun2'. injection Hrun2' as <- <-.
  pose proof (Hkept _ _ Hid1) as Hid1'. split; [done|].
  intros ->. unfold tree_path in *. congruence.
Qed.

Section StagingMore.
Context `{Impl : TransformImpl}.

(** Property X4.  [get_tree_parent] raises [KeyError] for an id that has
    no tree path and gives [ROOT_PARENT] for the id of the path [""], both
    without changing the transform.  For an id of another path, in a
    transform whose tree maps are consistent, it returns an id whose tree
    path is the [dirname] of that path (binding it if no id was bound to
    it), keeps the path of the id it was asked about, and leaves the tree
    maps consistent. *)
Theorem get_tree_parent_cases (trans_id : string) (t : TreeTransform) :
  (tree_path t trans_id = None →
   get_tree_parent trans_id t = (Raise (KeyError trans_id), t))
  ∧ (tree_path t trans_id = Some "" →
     get_tree_parent trans_id t = (Ok ROOT_PARENT, t))
  ∧ (∀ path,
       tree_path t trans_id = Some path → path ≠ "" →
       tree_ids_consistent t →
       ∃ parent t',
         get_tree_parent trans_id t = (Ok parent, t')
         ∧ tree_path t' parent = Some (os_path.dirname path)
         ∧ tree_path t' trans_id = Some path
         ∧ tree_ids_consistent t').
Proof.
  unfold tree_path, get_tree_parent. run. split; [|split].
  - by intros ->.
  - by intros ->.
  - intros path Hpath Hne Hinv. rewrite Hpath.
    rewrite bool_decide_eq_false_2 by done.
    destruct (trans_id_tree_path_consistent (os_path.dirname path) t Hinv)
      as (parent & t' & Hrun & Hinv' & Hid & _ & Hkept).
    exists parent, t'. rewrite Hrun. split; [done|]. split; [done|].
    split; [|done]. by apply Hkept.
Qed.

Lemma TreeTransform_eta (t : TreeTransform) :
  mkTreeTransform (_id_number t) (_tree_path_ids t) (_tree_id_paths t)
    (_new_name t) (_new_parent t) (_new_contents t) (_removed_contents t)
    (_new_executability t) (_new_reference_revision t) (_removed_id t)
    (_done t) (_new_root t) = t.
Proof. by destruct t. Qed.

(** Property X5.  In a transform where every id with a staged name or
    parent was handed out by the transform, [create_path] never raises
    [DuplicateKey]: it returns an id that was not handed out before, stages
    exactly the given name and parent for it and nothing for any other id,
    and every staged id is still one that was handed out. *)
Theorem create_path_fresh (name parent : string) (t : TreeTransform) :
  staged_ids_allocated t →
  ∃ trans_id t',
    create_path name parent t = (Ok trans_id, t')
    ∧ ¬ allocated t trans_id
    ∧ path_changed t trans_id = false
    ∧ _new_name t' = <[trans_id := name]> (_new_name t)
    ∧ _new_parent t' = <[trans_id := parent]> (_new_parent t)
    ∧ final_name trans_id t' = (Ok name, t')
    ∧ final_parent trans_id t' = (Ok parent, t')
    ∧ staged_ids_allocated t'.
Proof.
  intros Hstaged. set (new_id := "new-" +:+ pretty (_id_number t)).
  pose proof (next_id_not_allocated t) as Hfresh. fold new_id in Hfresh.
  assert (_new_name t !! new_id = None) as Hname.
  { destruct (_new_name t !! new_id) eqn:H; [|done].
    destruct Hfresh. apply Hstaged. left. rewrite H. eauto. }
  assert (_new_parent t !! new_id = None) as Hparent.
  { destruct (_new_parent t !! new_id) eqn:H; [|done].
    destruct Hfresh. apply Hstaged. right. rewrite H. eauto. }
  eexists new_id, _. split.
  { unfold create_path, _assign_id, unique_add. run. simpl. fold new_id.
    rewrite Hname. simpl. rewrite Hparent. reflexivity. }
  simpl. split; [done|]. split.
  { unfold path_changed. rewrite Hname, Hparent.
    rewrite !bool_decide_eq_false_2; [done|by intros [? ?]..]. }
  split; [done|]. split; [done|]. split.
  { apply final_name_staged. simpl. apply lookup_insert_eq. }
  split.
  { apply final_parent_staged. simpl. apply lookup_insert_eq. }
  intros i Hi. simpl in Hi.
  destruct (decide (i = new_id)) as [->|Hne].
  - exists (_id_number t). split; [simpl; lia|done].
  - rewrite !lookup_insert_ne in Hi by done.
    apply (allocated_mono t); [simpl; lia|]. by apply Hstaged.
Qed.

(** Property X6.  On an id that is not the root, [adjust_path] with a
    parent always succeeds and overrides whatever was staged or is in the
    tree: the final name and final parent of the id are then the ones given
    and its path counts as changed, while the names and parents staged for
    the other ids are left alone.  A later [adjust_path] on the same id
    replaces an earlier one entirely. *)
Theorem adjust_path_overrides (name parent trans_id : string)
    (t : TreeTransform) :
  _new_root t ≠ Some trans_id →
  let t' := with_path trans_id name parent t in
  adjust_path name (Some parent) trans_id t = (Ok (), t')
  ∧ final_name trans_id t' = (Ok name, t')
  ∧ final_parent trans_id t' = (Ok parent, t')
  ∧ path_changed t' trans_id = true
  ∧ (∀ other, other ≠ trans_id →
       _new_name t' !! other = _new_name t !! other
       ∧ _new_parent t' !! other = _new_parent t !! other)
  ∧ (∀ name2 parent2,
       (adjust_path name (Some parent) trans_id;;
        adjust_path name2 (Some parent2) trans_id : TT unit) t
       = adjust_path name2 (Some parent2) trans_id t).
Proof.
  intros Hroot t'. split; [by apply adjust_path_ok|].
  split; [apply final_name_staged, lookup_insert_eq|].
  split; [apply final_parent_staged, lookup_insert_eq|].
  split.
  { unfold path_changed, t', with_path. simpl. rewrite lookup_insert_eq.
    by rewrite (bool_decide_eq_true_2 (is_Some (Some name))) by eauto. }
  split.
  { intros other Hne. unfold t', with_path. simpl.
    by rewrite !lookup_insert_ne by done. }
  intros name2 parent2. run. rewrite adjust_path_ok by done.
  rewrite !adjust_path_ok by done. unfold with_path, set_new_parent, set_new_name.
  simpl. by rewrite !insert_insert_eq.
Qed.

(** Property X8.  [delete_contents] schedules the deletion of an id
    exactly when the tree has contents for it.  After it the final kind of
    the id is [None] unless new contents are staged, [cancel_deletion]
    undoes it, and a [cancel_deletion] with nothing scheduled raises
    [KeyError] and changes nothing. *)
Theorem delete_contents_cancel_deletion (trans_id : string)
    (t t1 : TreeTransform) :
  (tree_kind trans_id t = (Ok None, t1) →
   delete_contents trans_id t = (Ok (), t1))
  ∧ (∀ kind,
       tree_kind trans_id t = (Ok (Some kind), t1) →
       let t2 := set_removed_contents (_removed_contents t1 ∪ {[trans_id]}) t1 in
       delete_contents trans_id t = (Ok (), t2)
       ∧ (_new_contents t1 !! trans_id = None →
          final_kind trans_id t2 = (Ok None, t2))
       ∧ (trans_id ∉ _removed_contents t1 →
          cancel_deletion trans_id t2 = (Ok (), t1)))
  ∧ (trans_id ∉ _removed_contents t →
     cancel_deletion trans_id t = (Raise (KeyError trans_id), t)).
Proof.
  split; [|split].
  - intros Hkind. unfold delete_contents. run. by rewrite Hkind.
  - intros kind Hkind t2. split; [|split].
    + unfold delete_contents. run. by rewrite Hkind.
    + intros Hnew. unfold final_kind. run. subst t2. simpl. rewrite Hnew.
      rewrite bool_decide_eq_true_2; [done|]. set_solver.
    + intros Hnot. unfold cancel_deletion. run. subst t2. simpl.
      rewrite bool_decide_eq_true_2 by set_solver.
      unfold set_removed_contents. simpl.
      assert ((_removed_contents t1 ∪ {[trans_id]}) ∖ {[trans_id]}
              = _removed_contents t1) as ->.
      { apply set_eq. intros x.
        rewrite elem_of_difference, elem_of_union, elem_of_singleton.
        split; [by intros [[Hx | ->] Hne]|].
        intros Hx. split; [by left|]. by intros ->. }
      by rewrite TreeTransform_eta.
  - intros Hnot. unfold cancel_deletion. run.
    by rewrite bool_decide_eq_false_2.
Qed.

End StagingMore.

(** Property X7.  Scheduling an executable bit or a tree reference is
    write-once: a second [set_executability] or [set_tree_reference] for
    the same id raises [DuplicateKey] and keeps the first value.
    [set_executability(None, id)] unschedules the bit, giving back the
    transform as it was before the bit was set, and raises [KeyError] when
    no bit is scheduled for the id. *)
Theorem scheduling_is_write_once (trans_id : string) (t : TreeTransform) :
  (∀ e e',
     _new_executability t !! trans_id = None →
     let t1 := set_new_executability
                 (<[trans_id := e]> (_new_executability t)) t in
     set_executability (Some e) trans_id t = (Ok (), t1)
     ∧ set_executability (Some e') trans_id t1
       = (Raise (DuplicateKey trans_id), t1)
     ∧ set_executability None trans_id t1 = (Ok (), t))
  ∧ (_new_executability t !! trans_id = None →
     set_executability None trans_id t = (Raise (KeyError trans_id), t))
  ∧ (∀ revision revision',
       _new_reference_revision t !! trans_id = None →
       let t1 := set_new_reference_revision
                   (<[trans_id := revision]> (_new_reference_revision t)) t in
       set_tree_reference revision trans_id t = (Ok (), t1)
       ∧ set_tree_reference revision' trans_id t1
         = (Raise (DuplicateKey trans_id), t1)).
Proof.
  split; [|split].
  - intros e e' Hnone t1. unfold set_executability, unique_add. run.
    rewrite Hnone. subst t1. simpl. rewrite lookup_insert_eq.
    split; [done|]. split; [done|].
    unfold set_new_executability. simpl.
    rewrite delete_insert_eq, delete_id by done. by rewrite TreeTransform_eta.
  - intros Hnone. unfold set_executability. run. by rewrite Hnone.
  - intros revision revision' Hnone t1. unfold set_tree_reference, unique_add.
    rewrite Hnone. subst t1. simpl. by rewrite lookup_insert_eq.
Qed.

(** ** by_parent *)

Section ByParentFacts.
Context `{Impl : TransformImpl}.

Lemma by_parent_foldl (items : list (string * string))
    (m : gmap string (gset string)) (c p : string) :
  c ∈ default ∅ (foldl by_parent_step m items !! p)
  ↔ c ∈ default ∅ (m !! p) ∨ (c, p) ∈ items.
Proof.
  revert m. induction items as [|[c' p'] items IH]; intros m; simpl.
  - split; [auto|]. by intros [?|?%elem_of_nil].
  - rewrite IH, elem_of_cons. destruct (decide (p = p')) as [->|Hp].
    + rewrite lookup_insert_eq. simpl. rewrite elem_of_union, elem_of_singleton.
      split; [intros [[?| ->]|?]|intros [?|[[= -> ]|?]]]; auto.
    + rewrite lookup_insert_ne by done.
      split; [intros [?|?]|intros [?|[[= ? ?]|?]]]; auto. congruence.
Qed.

(** A final parent is always found for an id that has a tree path. *)
Lemma final_parent_of_tree_id trans_id t :
  is_Some (_tree_id_paths t !! trans_id) →
  ∃ parent t',
    final_parent trans_id t = (Ok parent, t')
    ∧ staging_graph t' = staging_graph t
    ∧ (∀ other, is_Some (_tree_id_paths t !! other) →
                is_Some (_tree_id_paths t' !! other)).
Proof.
  intros [path Hpath]. unfold final_parent, get_tree_parent. run.
  destruct (_new_parent t !! trans_id) as [parent|]; [by eauto 6|].
  rewrite Hpath. case_bool_decide; [by eauto 6|].
  unfold trans_id_tree_path, _assign_id. run.
  destruct (_tree_path_ids t !! canonical_path (os_path.dirname path));
    [by eauto 6|].
  eexists _, _. split; [reflexivity|]. split; [done|]. simpl.
  intros other Hother. rewrite lookup_insert_is_Some'. by right.
Qed.

Lemma for_each_cons {S A B} (x : A) (l : list A) (acc : B)
    (body : A → B → M S B) (s : S) :
  for_each (x :: l) acc body s
    = match body x acc s with
      | (Ok acc', s') => for_each l acc' body s'
      | (Raise e, s') => (Raise e, s')
      end.
Proof. reflexivity. Qed.

Lemma bind_run {S A B} (m : M S A) (k : A → M S B) (s : S) :
  (m ≫= k) s
    = match m s with
      | (Ok a, s') => k a s'
      | (Raise e, s') => (Raise e, s')
      end.
Proof. reflexivity. Qed.

Lemma tree_items_loop (keys : list string) :
  ∀ (acc : list (string * string)) (t : TreeTransform),
    (∀ k, k ∈ keys → is_Some (_tree_id_paths t !! k)) →
    ∃ items t',
      for_each keys acc
        (λ trans_id acc,
           parent_id ← final_parent trans_id;
           mret (acc ++ [(trans_id, parent_id)])) t
      = (Ok (acc ++ items), t')
      ∧ items.*1 = keys
      ∧ staging_graph t' = staging_graph t.
Proof.
  induction keys as [|k keys IH]; intros acc t Hkeys.
  - exists [], t. by rewrite app_nil_r.
  - destruct (final_parent_of_tree_id k t) as (parent & t1 & Hparent & Hg & Hkept).
    { apply Hkeys. by left. }
    destruct (IH (acc ++ [(k, parent)]) t1) as (items & t' & Hrun & Hkeys' & Hg').
    { intros k' Hk'. apply Hkept, Hkeys. by right. }
    exists ((k, parent) :: items), t'. rewrite for_each_cons.
    assert ((parent_id ← final_parent k;
             mret (acc ++ [(k, parent_id)]) : TT (list (string * string))) t
            = (Ok (acc ++ [(k, parent)]), t1)) as ->
      by (run; by rewrite Hparent).
    rewrite Hrun. rewrite <- app_assoc. simpl. split; [done|].
    split; [by rewrite <- Hkeys'|congruence].
Qed.

(** Property X9.  [by_parent] never raises and leaves the staging graph as
    it was.  In the dictionary it returns, every id with a staged parent is
    listed under that parent, every id with a tree path is listed under
    some parent, and only ids that have a staged parent or a tree path are
    listed at all. *)
Theorem by_parent_lists_known_ids (t : TreeTransform) :
  ∃ children t',
    by_parent t = (Ok children, t')
    ∧ staging_graph t' = staging_graph t
    ∧ (∀ c p, _new_parent t !! c = Some p → c ∈ default ∅ (children !! p))
    ∧ (∀ c, is_Some (_tree_id_paths t !! c) →
            ∃ p, c ∈ default ∅ (children !! p))
    ∧ (∀ c p, c ∈ default ∅ (children !! p) →
              is_Some (_new_parent t !! c) ∨ is_Some (_tree_id_paths t !! c)).
Proof.
  destruct (tree_items_loop (map_to_list (_tree_id_paths t)).*1 [] t)
    as (items & t' & Hrun & Hkeys & Hg).
  { intros k [[k' path] [-> Hk]]%list_elem_of_fmap.
    apply elem_of_map_to_list in Hk. simpl. eauto. }
  eexists _, t'. split.
  { unfold by_parent. rewrite bind_run. unfold get at 1. cbv zeta.
    rewrite bind_run, Hrun. reflexivity. }
  split; [done|].
  change (λ (by_parent : gmap string (gset string)) '(trans_id, parent_id),
            <[parent_id := default ∅ (by_parent !! parent_id) ∪ {[trans_id]}]>
              by_parent) with by_parent_step.
  split; [|split].
  - intros c p Hcp. apply by_parent_foldl. right. apply elem_of_app. left.
    by apply elem_of_map_to_list.
  - intros c [path Hc].
    assert (c ∈ items.*1) as [[c' p] [-> Hin]]%list_elem_of_fmap.
    { rewrite Hkeys. apply list_elem_of_fmap. exists (c, path).
      split; [done|]. by apply elem_of_map_to_list. }
    exists p. apply by_parent_foldl. right. apply elem_of_app. by right.
  - intros c p [Hc|Hc]%by_parent_foldl; [by rewrite lookup_empty in Hc|].
    apply elem_of_app in Hc as [Hc|Hc].
    + left. apply elem_of_map_to_list in Hc. eauto.
    + right. assert (c ∈ items.*1) as Hin.
      { apply list_elem_of_fmap. by exists (c, p). }
      rewrite Hkeys in Hin.
      apply list_elem_of_fmap in Hin as [[c' path] [-> Hin]].
      apply elem_of_map_to_list in Hin. simpl. eauto.
Qed.

End ByParentFacts.

(** ** Reparenting *)

Section ReparentFacts.
Context `{Impl : TransformImpl}.

Lemma final_name_with_path_ne (a name p x n : string) (s : TreeTransform) :
  x ≠ a →
  (final_name x s).1 = Ok n →
  final_name x (with_path a name p s) = (Ok n, with_path a name p s).
Proof.
  intros Hne. unfold final_name, with_path. run. simpl.
  rewrite lookup_insert_ne by done.
  destruct (_new_name s !! x); [by intros [= ->]|].
  destruct (_tree_id_paths s !! x); [by intros [= ->]|].
  by destruct (final_file_id x s) as [[file_id|e] t'].
Qed.

Lemma reparent_loop (new_parent : string) (children : list string) :
  ∀ s : TreeTransform,
    NoDup children →
    (∀ c, c ∈ children →
          _new_root s ≠ Some c ∧ ∃ n, (final_name c s).1 = Ok n) →
    ∃ s',
      for_each children ()
        (λ child _,
           name ← final_name child;
           adjust_path name (Some new_parent) child) s = (Ok (), s')
      ∧ _new_root s' = _new_root s
      ∧ (∀ c, c ∈ children →
              _new_parent s' !! c = Some new_parent
              ∧ (final_name c s').1 = (final_name c s).1)
      ∧ (∀ c, c ∉ children →
              _new_parent s' !! c = _new_parent s !! c
              ∧ _new_name s' !! c = _new_name s !! c).
Proof.
  induction children as [|c children IH]; intros s Hnodup Hok.
  - exists s. split; [done|]. split; [done|]. split; [|done].
    by intros c ?%elem_of_nil.
  - apply NoDup_cons in Hnodup as [Hc Hnodup].
    destruct (Hok c) as [Hroot [n Hn]]; [by left|].
    set (s1 := with_path c n new_parent s).
    assert ((name ← final_name c;
             adjust_path name (Some new_parent) c : TT unit) s = (Ok (), s1))
      as Hstep.
    { run. rewrite (final_name_ok _ _ _ Hn). by rewrite adjust_path_ok. }
    destruct (IH s1 Hnodup) as (s' & Hrun & Hroot' & Hin & Hout).
    { intros c' Hc'. destruct (Hok c') as [Hroot1 [n' Hn']]; [by right|].
      split; [done|]. exists n'. unfold s1.
      by rewrite (final_name_with_path_ne c n new_parent c' n')
        by (done || congruence). }
    exists s'. rewrite for_each_cons, Hstep. split; [done|].
    split; [done|]. split.
    + intros c' [->|Hc']%elem_of_cons.
      * destruct (Hout c Hc) as [Hp Hnm]. split.
        -- rewrite Hp. apply lookup_insert_eq.
        -- rewrite Hn. rewrite (final_name_staged c n); [done|].
           rewrite Hnm. apply lookup_insert_eq.
      * destruct (Hin c' Hc') as [Hp Hnm]. split; [done|]. rewrite Hnm.
        destruct (Hok c') as [_ [n' Hn']]; [by right|].
        rewrite Hn'. unfold s1.
        by rewrite (final_name_with_path_ne c n new_parent c' n')
          by (done || congruence).
    + intros c' Hc'. apply not_elem_of_cons in Hc' as [Hne Hc'].
      destruct (Hout c' Hc') as [Hp Hnm]. rewrite Hp, Hnm. simpl.
      by rewrite !lookup_insert_ne by done.
Qed.

Lemma reparent_children (old_parent new_parent : string)
    (t t1 : TreeTransform) (listed : gmap string (gset string))
    (children : gset string) :
  by_parent t = (Ok listed, t1) →
  listed !! old_parent = Some children →
  (∀ c, c ∈ children →
        _new_root t1 ≠ Some c ∧ ∃ n, (final_name c t1).1 = Ok n) →
  ∃ t2,
    _reparent_transform_children old_parent (Some new_parent) t
      = (Ok children, t2)
    ∧ _new_root t2 = _new_root t1
    ∧ (∀ c, c ∈ children →
            final_parent c t2 = (Ok new_parent, t2)
            ∧ (final_name c t2).1 = (final_name c t1).1)
    ∧ (∀ c, c ∉ children →
            _new_parent t2 !! c = _new_parent t1 !! c
            ∧ _new_name t2 !! c = _new_name t1 !! c).
Proof.
  intros Hlisted Hsome Hok.
  destruct (reparent_loop new_parent (elements children) t1)
    as (t2 & Hrun & Hroot & Hin & Hout).
  { apply NoDup_elements. }
  { intros c Hc. apply Hok. by apply elem_of_elements. }
  exists t2. split; [|split; [done|split]].
  - unfold _reparent_transform_children.
    rewrite bind_run, Hlisted, Hsome, bind_run, Hrun. reflexivity.
  - intros c Hc. destruct (Hin c) as [Hp Hn]; [by apply elem_of_elements|].
    split; [by apply final_parent_staged|done].
  - intros c Hc. apply Hout. by rewrite elem_of_elements.
Qed.

(** Property X10.  [_reparent_transform_children] raises [KeyError] when
    [by_parent] lists no child under the old parent.  Otherwise, when none
    of the children is the root and each has a final name, it stages every
    child of the old parent under the new parent with the final name the
    child had, returns the set of these children, and leaves the staged
    names and parents of all other ids as they were. *)
Theorem reparenting_moves_children (old_parent new_parent : string)
    (t t1 : TreeTransform) (listed : gmap string (gset string)) :
  by_parent t = (Ok listed, t1) →
  (listed !! old_parent = None →
   ∀ new_parent,
     _reparent_transform_children old_parent new_parent t
       = (Raise (KeyError old_parent), t1))
  ∧ (∀ children,
       listed !! old_parent = Some children →
       (∀ c, c ∈ children →
             _new_root t1 ≠ Some c ∧ ∃ n, (final_name c t1).1 = Ok n) →
       ∃ t2,
         _reparent_transform_children old_parent (Some new_parent) t
           = (Ok children, t2)
         ∧ (∀ c, c ∈ children →
                 final_parent c t2 = (Ok new_parent, t2)
                 ∧ (final_name c t2).1 = (final_name c t1).1)
         ∧ (∀ c, c ∉ children →
                 _new_parent t2 !! c = _new_parent t1 !! c
                 ∧ _new_name t2 !! c = _new_name t1 !! c)).
Proof.
  intros Hlisted. split.
  - intros Hnone np. unfold _reparent_transform_children.
    rewrite bind_run, Hlisted, Hnone. reflexivity.
  - intros children Hsome Hok.
    destruct (reparent_children _ new_parent _ _ _ _ Hlisted Hsome Hok)
      as (t2 & Hrun & _ & Hin & Hout).
    by exists t2.
Qed.

End ReparentFacts.

(** ** More of conflict_pass *)

Section PassFacts.
Context `{Impl : TransformImpl}.

Lemma orphan_loop_placed (trans_id : string) (orphans : list string) :
  ∀ t0 t1 : TreeTransform,
    for_each orphans () (λ o _, new_orphan o trans_id) t0 = (Ok (), t1) →
    orphan_loop trans_id orphans t0 = (Ok false, t1).
Proof.
  induction orphans as [|o orphans IH]; intros t0 t1.
  - by intros [= <-].
  - rewrite for_each_cons. unfold orphan_loop; fold orphan_loop. run.
    destruct (new_orphan o trans_id t0) as [[[]|e] t']; [|done].
    apply IH.
Qed.

(** Property X11.  For a 'missing parent' conflict whose parent id is
    scheduled for content deletion, when the orphan policy places every
    potential orphan, [conflict_pass] records nothing for the conflict and
    does not cancel the deletion: the transform is left as the policy left
    it. *)
Theorem conflict_pass_orphans_placed path_tree fuel (trans_id o : string)
    (orphans : list string) (t t0 t1 : TreeTransform) :
  trans_id ∈ _removed_contents t →
  _get_potential_orphans trans_id t = (Ok (Some (o :: orphans)), t0) →
  for_each (o :: orphans) () (λ o _, new_orphan o trans_id) t0 = (Ok (), t1) →
  (∀ new_conflicts,
     conflict_pass_body path_tree fuel ["missing parent"; trans_id]
       new_conflicts t = (Ok new_conflicts, t1))
  ∧ conflict_pass path_tree fuel [["missing parent"; trans_id]] t = (Ok ∅, t1).
Proof.
  intros Hdel Horphans Hplaced.
  assert (∀ new_conflicts,
     conflict_pass_body path_tree fuel ["missing parent"; trans_id]
       new_conflicts t = (Ok new_conflicts, t1)) as Hbody.
  { intros new_conflicts. rewrite conflict_pass_body_fuel by done.
    rewrite (pass_missing_parent_orphans _ _ _ _ _ _ _ Hdel Horphans).
    by rewrite (orphan_loop_placed _ _ _ _ Hplaced). }
  split; [done|]. by rewrite conflict_pass_single.
Qed.

(** Property X12.  For a 'missing parent' conflict whose parent id is
    scheduled for content deletion, when [_get_potential_orphans] returns
    [None] or an empty list, the deletion is cancelled and
    [('deleting parent', 'Not deleting', trans_id)] is recorded; the result
    does not depend on the orphan policy. *)
Theorem conflict_pass_no_orphans path_tree fuel (trans_id : string)
    (orphans : option (list string)) (t t0 : TreeTransform) :
  trans_id ∈ _removed_contents t →
  _get_potential_orphans trans_id t = (Ok orphans, t0) →
  orphans = None ∨ orphans = Some [] →
  trans_id ∈ _removed_contents t0 →
  let recorded := ["deleting parent"; "Not deleting"; trans_id] in
  let t' := set_removed_contents (_removed_contents t0 ∖ {[trans_id]}) t0 in
  (∀ new_conflicts,
     conflict_pass_body path_tree fuel ["missing parent"; trans_id]
       new_conflicts t = (Ok (new_conflicts ∪ {[recorded]}), t'))
  ∧ conflict_pass path_tree fuel [["missing parent"; trans_id]] t
    = (Ok {[recorded]}, t').
Proof.
  intros Hdel Horphans Hnone Hdel0 recorded t'.
  assert (∀ new_conflicts,
     conflict_pass_body path_tree fuel ["missing parent"; trans_id]
       new_conflicts t = (Ok (new_conflicts ∪ {[recorded]}), t')) as Hbody.
  { intros new_conflicts. unfold conflict_pass_body. simpl. run. simpl.
    unfold pass_missing_parent. run. simpl.
    rewrite bool_decide_eq_true_2 by done. rewrite Horphans.
    unfold cancel_deletion. run.
    destruct Hnone as [-> | ->]; by rewrite bool_decide_eq_true_2 by done. }
  split; [done|]. by apply conflict_pass_alone.
Qed.

Lemma conflict_pass_body_other path_tree fuel (c_type : string)
    (conflict : list string) new_conflicts (t : TreeTransform) :
  c_type ∉ repaired_types →
  conflict_pass_body path_tree fuel (c_type :: conflict) new_conflicts t
    = (Ok new_conflicts, t).
Proof.
  intros Hother. unfold conflict_pass_body. run. simpl.
  repeat match goal with
  | |- context [String.eqb c_type ?s] =>
      destruct (String.eqb_spec c_type s) as [->|_];
        [exfalso; apply Hother; unfold repaired_types; set_solver|]
  end.
  reflexivity.
Qed.

Lemma conflict_pass_loop_other path_tree fuel (conflicts : list raw_conflict) :
  ∀ (acc : gset raw_conflict) (t : TreeTransform),
    (∀ conflict, conflict ∈ conflicts →
       ∃ c_type rest, conflict = c_type :: rest ∧ c_type ∉ repaired_types) →
    for_each conflicts acc (conflict_pass_body path_tree fuel) t = (Ok acc, t).
Proof.
  induction conflicts as [|c conflicts IH]; intros acc t Hother; [done|].
  destruct (Hother c) as (c_type & rest & -> & Hc); [by left|].
  rewrite for_each_cons, conflict_pass_body_other by done.
  apply IH. intros c' Hc'. apply Hother. by right.
Qed.

(** Property X13.  [conflict_pass] repairs seven conflict types only.
    Conflicts of any other type are passed over: nothing is recorded for
    them and the transform is not touched, whatever the rest of the tuple
    holds. *)
Theorem conflict_pass_ignores_other_types path_tree fuel
    (conflicts : list raw_conflict) (t : TreeTransform) :
  (∀ conflict, conflict ∈ conflicts →
     ∃ c_type rest, conflict = c_type :: rest ∧ c_type ∉ repaired_types) →
  conflict_pass path_tree fuel conflicts t = (Ok ∅, t).
Proof. intros Hother. by apply conflict_pass_loop_other. Qed.

(** Property X14.  Without a [path_tree], a 'missing parent' conflict on an
    id that is not scheduled for content deletion always ends in
    [create_directory]: when the id has a final name, and also when
    [final_name] raises [NoFinalPath], which is caught.  Once the directory
    is created, [('missing parent', 'Created directory', trans_id)] is
    recorded. *)
Theorem conflict_pass_missing_parent_creates fuel (trans_id : string)
    (r : result string) (t t0 : TreeTransform) :
  trans_id ∉ _removed_contents t →
  final_name trans_id t = (r, t0) →
  (∀ e, r = Raise e → is_NoFinalPath e = true) →
  ∀ new_conflicts,
    conflict_pass_body None fuel ["missing parent"; trans_id] new_conflicts t
    = match create_directory trans_id t0 with
      | (Ok _, t') =>
          (Ok (new_conflicts
                 ∪ {[ ["missing parent"; "Created directory"; trans_id] ]}), t')
      | (Raise e, t') => (Raise e, t')
      end.
Proof.
  intros Hdel Hname Hcaught new_conflicts.
  unfold conflict_pass_body. simpl. run. simpl.
  unfold pass_missing_parent. run. simpl.
  rewrite bool_decide_eq_false_2 by done. rewrite Hname.
  destruct r as [name|e].
  - by destruct (create_directory trans_id t0) as [[[]|e] t'].
  - rewrite (Hcaught e eq_refl).
    by destruct (create_directory trans_id t0) as [[[]|e'] t'].
Qed.

End PassFacts.

(** ** More of the rename journal *)

Section MoverFacts.
Context {FS : Type}.
Variable os_rename : string → string → FS → OSError + FS.
Variable delete_any : string → FS → OSError + FS.

Lemma rollback_resets (s s' : World FS * _FileMover) :
  rollback os_rename s = (Ok (), s') → s'.2 = mkFileMover None None.
Proof.
  destruct s as [w m]. unfold rollback. run.
  destruct (past_renames m) as [l|]; [|done].
  destruct (for_each (rev l) () _ (w, m)) as [[[]|e] [w' m']]; [|done].
  by intros [= <-].
Qed.

Lemma apply_deletions_resets (s s' : World FS * _FileMover) :
  apply_deletions delete_any s = (Ok (), s') → s'.2 = mkFileMover None None.
Proof.
  destruct s as [w m]. unfold apply_deletions. run.
  destruct (pending_deletions m) as [l|]; [|done].
  destruct (for_each l () _ (w, m)) as [[[]|e] [w' m']]; [|done].
  by intros [= <-].
Qed.

(** Property X15.  A journal is used up by a [rollback] or an
    [apply_deletions] that returns: a later [rollback] or [apply_deletions]
    raises [TypeError] and touches nothing, and a later [rename] still
    renames on disk before it raises [AttributeError], so that this rename
    is recorded nowhere. *)
Theorem mover_not_reusable (s s' : World FS * _FileMover) :
  rollback os_rename s = (Ok (), s')
  ∨ apply_deletions delete_any s = (Ok (), s') →
  rollback os_rename s' = (Raise TypeError, s')
  ∧ apply_deletions delete_any s' = (Raise TypeError, s')
  ∧ ∀ from_ to fs,
      os_rename from_ to (disk s'.1) = inr fs →
      rename os_rename from_ to s'
        = (Raise AttributeError,
           (mkWorld fs (syscalls s'.1 ++ [(from_, to, true)]), s'.2)).
Proof.
  intros Hused.
  assert (s'.2 = mkFileMover None None) as Hreset.
  { destruct Hused as [H|H];
      [by apply (rollback_resets s)|by apply (apply_deletions_resets s)]. }
  destruct s' as [w' m']. simpl in Hreset. subst m'.
  split; [done|]. split; [done|].
  intros from_ to fs Hos. simpl in Hos. unfold rename, sys_rename. simpl.
  by rewrite Hos.
Qed.

(** Property X16.  [rollback] stops at the first inverse rename that the
    file system refuses: it raises [TransformRenameFailed(to, from_, ...)]
    whatever the errno is, the renames recorded before the one that could
    not be undone stay in place, and the journal is not cleared. *)
Theorem rollback_stops_at_failed_undo (earlier later : list (string * string))
    (from_ to : string) (w w1 : World FS) (m : _FileMover) (err : OSError) :
  past_renames m = Some (earlier ++ (from_, to) :: later) →
  for_each (rev later) ()
    (λ '(from_, to) _, undo_rename os_rename from_ to) (w, m)
    = (Ok (), (w1, m)) →
  os_rename to from_ (disk w1) = inl err →
  rollback os_rename (w, m)
    = (Raise (TransformRenameFailed to from_ (strerror err) (errno err)),
       (mkWorld (disk w1) (syscalls w1 ++ [(to, from_, false)]), m)).
Proof.
  intros Hpast Hlater Hfail. unfold rollback. rewrite bind_run. unfold get at 1.
  cbv beta iota zeta. rewrite Hpast.
  rewrite rev_app_distr. simpl rev. rewrite <- app_assoc. simpl app.
  rewrite bind_run, for_each_app, Hlater, for_each_cons.
  unfold undo_rename at 1, sys_rename. simpl. by rewrite Hfail.
Qed.

Lemma run_op_records (op : mover_op) (w : World FS) (m : _FileMover)
    (s1 : World FS * _FileMover) (l : list (string * string))
    (pending : list string) :
  past_renames m = Some l →
  pending_deletions m = Some pending →
  run_op os_rename op (w, m) = (Ok (), s1) →
  past_renames s1.2 = Some (l ++ requested [op])
  ∧ pending_deletions s1.2 = Some (pending ++ marked [op]).
Proof.
  intros Hl Hp. destruct op as [a b|a b]; simpl.
  - unfold rename. destruct (sys_rename os_rename a b w) as [[e|[]] w'];
      [done|]. rewrite Hl. intros [= <-]. simpl. by rewrite app_nil_r.
  - unfold pre_delete, rename. run.
    destruct (sys_rename os_rename a b w) as [[e|[]] w']; [done|].
    rewrite Hl. unfold append_pending. simpl. rewrite Hp. by intros [= <-].
Qed.

Lemma run_ops_record (ops : list mover_op) :
  ∀ (w : World FS) (m : _FileMover) s1 l pending,
    past_renames m = Some l →
    pending_deletions m = Some pending →
    for_each ops () (λ op _, run_op os_rename op) (w, m) = (Ok (), s1) →
    past_renames s1.2 = Some (l ++ requested ops)
    ∧ pending_deletions s1.2 = Some (pending ++ marked ops).
Proof.
  induction ops as [|op ops IH]; intros w m s1 l pending Hl Hp.
  - intros [= <-]. simpl. by rewrite !app_nil_r.
  - rewrite for_each_cons.
    destruct (run_op os_rename op (w, m)) as [[[]|e] [w' m']] eqn:Hop; [|done].
    destruct (run_op_records _ _ _ _ _ _ Hl Hp Hop) as [Hl' Hp'].
    intros Hrest. destruct (IH _ _ _ _ _ Hl' Hp' Hrest) as [Hl1 Hp1].
    rewrite Hl1, Hp1, <- !app_assoc.
    split; f_equal; f_equal; unfold marked; simpl; by destruct op.
Qed.

(** Property X17.  After a run of [rename] and [pre_delete] requests on a
    fresh journal in which no request raised, [past_renames] lists every
    request as a [(from_, to)] pair, in order, and [pending_deletions] lists
    the destinations of the [pre_delete] requests, in order: a path is
    marked for deletion only after it has been renamed out of the way. *)
Theorem journal_after_requests (ops : list mover_op) (w : World FS)
    (s1 : World FS * _FileMover) :
  for_each ops () (λ op _, run_op os_rename op) (w, new_mover) = (Ok (), s1) →
  past_renames s1.2 = Some (requested ops)
  ∧ pending_deletions s1.2 = Some (marked ops)
  ∧ ∀ path, path ∈ marked ops → path ∈ (requested ops).*2.
Proof.
  intros Hrun.
  destruct (run_ops_record ops w new_mover s1 [] [] eq_refl eq_refl Hrun)
    as [Hl Hp].
  split; [done|]. split; [done|].
  intros path. unfold marked, requested.
  rewrite list_elem_of_omap. intros (op & Hop & Hto).
  rewrite <- list_fmap_compose. apply list_elem_of_fmap.
  exists op. split; [|done]. destruct op; simpl in *; congruence.
Qed.

Lemma delete_loop (l : list string) :
  ∀ (w : World FS) (m : _FileMover) fs,
    delete_all delete_any l (disk w) = Some fs →
    for_each l () (λ path _, delete_path delete_any path) (w, m)
      = (Ok (), (mkWorld fs (syscalls w), m)).
Proof.
  induction l as [|path l IH]; intros w m fs; simpl.
  - intros [= <-]. by destruct w.
  - destruct (delete_any path (disk w)) as [err|fs1] eqn:Hdel; [done|].
    intros Hrest. run. unfold delete_path at 1. rewrite Hdel.
    by rewrite (IH (mkWorld fs1 (syscalls w)) m fs).
Qed.

(** Property X18.  [apply_deletions] deletes the pending paths in the order
    they were marked and makes no rename.  When every deletion succeeds the
    journal is cleared.  When one fails, its [OSError] is not caught: the
    paths deleted before it stay deleted, the later ones are not tried, and
    the journal is not cleared. *)
Theorem apply_deletions_in_order (w : World FS) (m : _FileMover) :
  (∀ l fs,
     pending_deletions m = Some l →
     delete_all delete_any l (disk w) = Some fs →
     apply_deletions delete_any (w, m)
       = (Ok (), (mkWorld fs (syscalls w), mkFileMover None None)))
  ∧ (∀ done_ path rest fs err,
       pending_deletions m = Some (done_ ++ path :: rest) →
       delete_all delete_any done_ (disk w) = Some fs →
       delete_any path fs = inl err →
       apply_deletions delete_any (w, m)
         = (Raise (UncaughtOSError err), (mkWorld fs (syscalls w), m))).
Proof.
  split.
  - intros l fs Hpending Hall. unfold apply_deletions.
    rewrite bind_run. unfold get at 1. cbv beta iota zeta. rewrite Hpending.
    by rewrite bind_run, (delete_loop l w m fs Hall).
  - intros done_ path rest fs err Hpending Hall Hfail. unfold apply_deletions.
    rewrite bind_run. unfold get at 1. cbv beta iota zeta. rewrite Hpending.
    rewrite bind_run, for_each_app, (delete_loop done_ w m fs Hall).
    rewrite for_each_cons. unfold delete_path at 1. simpl. by rewrite Hfail.
Qed.

End MoverFacts.

Section RollbackFacts.
Context {FS : Type}.
Variable os_rename : string → string → FS → OSError + FS.

(** A successful rename is undone by the rename in the other direction. *)
Hypothesis os_rename_undo :
  ∀ a b fs fs', os_rename a b fs = inr fs' → os_rename b a fs' = inr fs.

(** Property X19.  On a file system where a successful rename is undone by
    the rename in the other direction, [rollback] after a run of requests
    on a fresh journal in which no request raised restores the disk: every
    recorded rename is undone, last one first, and the journal is
    cleared. *)
Theorem rollback_restores (ops : list mover_op) (w : World FS)
    (s1 : World FS * _FileMover) :
  for_each ops () (λ op _, run_op os_rename op) (w, new_mover) = (Ok (), s1) →
  rollback os_rename s1
    = (Ok (), (mkWorld (disk w)
                 (syscalls s1.1
                    ++ ((λ r, (undo_of r, true)) <$> rev (requested ops))),
               mkFileMover None None)).
Proof.
  intros Hrun.
  destruct (run_ops_replay _ _ _ _ [] _ Hrun eq_refl) as (l & Hpast & Hreplay).
  destruct (run_ops_record os_rename ops w new_mover s1 [] [] eq_refl eq_refl
              Hrun) as [Hreq _].
  simpl in Hpast, Hreplay, Hreq. rewrite Hpast in Hreq.
  injection Hreq as ->.
  destruct s1 as [w1 m1]. simpl in *. unfold rollback.
  rewrite bind_run. unfold get at 1. cbv beta iota zeta. rewrite Hpast.
  rewrite bind_run.
  by rewrite (undo_all _ os_rename_undo _ (disk w) (disk w1) w1 m1 Hreplay eq_refl).
Qed.

End RollbackFacts.

(** ** resolve_checkout *)

Section CheckoutFacts.
Context `{Impl : TransformImpl}.

Lemma resolve_checkout_loop_app (divert : gset string)
    (l1 l2 : list raw_conflict) :
  ∀ (acc : gset raw_conflict) (t : TreeTransform),
    resolve_checkout_loop divert (l1 ++ l2) acc t
    = match resolve_checkout_loop divert l1 acc t with
      | (Ok (inl acc'), t1) => resolve_checkout_loop divert l2 acc' t1
      | other => other
      end.
Proof.
  induction l1 as [|c l1 IH]; intros acc t; [done|].
  simpl app. unfold resolve_checkout_loop; fold resolve_checkout_loop.
  run.
  repeat first [apply IH | reflexivity | case_match].
Qed.


(** Property X20.  [resolve_checkout] handles 'duplicate' conflicts only.
    At the first conflict of another type it raises
    [AssertionError(c_type)]: the conflicts after it are not looked at, and
    what was staged for the 'duplicate' conflicts before it stays
    staged. *)
Theorem resolve_checkout_asserts (divert : gset string)
    (processed : list raw_conflict) (c_type : string) (rest : list string)
    (more : list raw_conflict) (new_conflicts : gset raw_conflict)
    (t t1 : TreeTransform) :
  resolve_checkout processed divert t = (Ok (inl new_conflicts), t1) →
  c_type ≠ "duplicate" →
  resolve_checkout (processed ++ (c_type :: rest) :: more) divert t
    = (Ok (inr c_type), t1).
Proof.
  unfold resolve_checkout. intros Hprocessed Hother.
  rewrite resolve_checkout_loop_app, Hprocessed.
  unfold resolve_checkout_loop. rewrite bind_run. simpl.
  by destruct (String.eqb_spec c_type "duplicate").
Qed.

(** Property X21.  For one 'duplicate' conflict, [resolve_checkout] takes
    as the new file the first id when it has new contents and the second id
    otherwise.  When the new file is in [divert] it is the new file that is
    staged next to the old one, under the old file's final name followed by
    '.diverted'; otherwise the old file is renamed in place to its final
    name followed by '.moved'.  Nothing else is staged. *)
Theorem resolve_checkout_duplicate (divert : gset string) (c1 c2 : string)
    (t t1 : TreeTransform) (p name : string) :
  let new_file := if new_contents t c1 then c1 else c2 in
  let old_file := if new_contents t c1 then c2 else c1 in
  final_parent old_file t = (Ok p, t1) →
  (final_name old_file t1).1 = Ok name →
  (new_file ∈ divert →
   _new_root t1 ≠ Some new_file →
   resolve_checkout [["duplicate"; c1; c2]] divert t
     = (Ok (inl {[ ["duplicate"; "Diverted to"; new_file; old_file] ]}),
        with_path new_file (name +:+ ".diverted") p t1))
  ∧ (new_file ∉ divert →
     _new_root t1 ≠ Some old_file →
     resolve_checkout [["duplicate"; c1; c2]] divert t
       = (Ok (inl {[ ["duplicate"; "Moved existing file to";
                      old_file; new_file] ]}),
          with_path old_file (name +:+ ".moved") p t1)).
Proof.
  intros new_file old_file Hparent Hname.
  apply final_name_ok in Hname.
  assert (∀ (k : string * string → TT (gset raw_conflict + string)),
            ((if new_contents t c1
              then new_file ← item ["duplicate"; c1; c2] 1;
                   old_file ← item ["duplicate"; c1; c2] 2;
                   mret (new_file, old_file)
              else new_file ← item ["duplicate"; c1; c2] 2;
                   old_file ← item ["duplicate"; c1; c2] 1;
                   mret (new_file, old_file)) ≫= k) t
            = k (new_file, old_file) t) as Hpick.
  { intros k. subst new_file old_file. by destruct (new_contents t c1). }
  split; intros Hdivert Hroot; unfold resolve_checkout, resolve_checkout_loop;
    rewrite bind_run; simpl; rewrite bind_run; simpl;
    rewrite bind_run; unfold get at 1; cbv beta iota zeta;
    rewrite Hpick; cbv beta iota zeta; rewrite bind_run, Hparent.
  - rewrite bool_decide_eq_true_2 by done.
    rewrite !bind_run, Hname, bind_run, adjust_path_ok by done.
    simpl. by rewrite (left_id_L ∅ (∪)).
  - rewrite bool_decide_eq_false_2 by done.
    rewrite !bind_run, Hname, bind_run, adjust_path_ok by done.
    simpl. by rewrite (left_id_L ∅ (∪)).
Qed.

End CheckoutFacts.

(** ** FinalPaths *)

Section PathsFacts.
Context `{Impl : TransformImpl}.
Variable pathjoin : string → string → string.

Lemma get_path_known (fuel : nat) (trans_id path : string)
    (t : TreeTransform) (known : gmap string string) :
  known !! trans_id = Some path →
  get_path pathjoin fuel trans_id (t, known) = (Ok path, (t, known)).
Proof. intros Hknown. destruct fuel; simpl; run; by rewrite Hknown. Qed.

Lemma on_transform_memo {A} (m : TT A) (t : TreeTransform)
    (known : gmap string string) (r : result A)
    (s : TreeTransform * gmap string string) :
  on_transform m (t, known) = (r, s) → s.2 = known.
Proof. unfold on_transform. destruct (m t) as [r' t']. by intros [= _ <-]. Qed.

Lemma get_path_memo_grows (fuel : nat) :
  ∀ (trans_id : string) (t : TreeTransform) (known : gmap string string)
    (r : result string) (s : TreeTransform * gmap string string),
    get_path pathjoin fuel trans_id (t, known) = (r, s) → known ⊆ s.2.
Proof.
  induction fuel as [|fuel IH]; intros trans_id t known r s; simpl; run;
    intros Hrun; apply (f_equal (λ x, x.2.2)) in Hrun; simpl in Hrun;
    rewrite <- Hrun; clear Hrun.
  - by destruct (known !! trans_id).
  - destruct (known !! trans_id) eqn:Hknown; [done|].
    unfold _determine_path. run.
    destruct (bool_decide (Some trans_id = root t)
              || bool_decide (trans_id = ROOT_PARENT)).
    { by apply insert_subseteq. }
    destruct (on_transform (final_name trans_id) (t, known))
      as [[name|e] [t1 known1]] eqn:Hname;
      apply on_transform_memo in Hname; simpl in Hname; subst known1;
      [|done].
    destruct (on_transform (final_parent trans_id) (t1, known))
      as [[parent|e] [t2 known2]] eqn:Hparent;
      apply on_transform_memo in Hparent; simpl in Hparent; subst known2;
      [|done].
    destruct (bool_decide (Some parent = root t2)).
    { by apply insert_subseteq. }
    destruct (get_path pathjoin fuel parent (t2, known))
      as [[ppath|e] [t3 known3]] eqn:Hrec; apply IH in Hrec; simpl in Hrec.
    2: { exact Hrec. }
    simpl. by apply insert_subseteq_r.
Qed.

Lemma get_path_stores (fuel : nat) (trans_id path : string)
    (t t1 : TreeTransform) (known known1 : gmap string string) :
  get_path pathjoin fuel trans_id (t, known) = (Ok path, (t1, known1)) →
  known1 !! trans_id = Some path.
Proof.
  destruct fuel; simpl; run.
  - destruct (known !! trans_id) eqn:Hknown; [|done]. by intros [= <- _ <-].
  - destruct (known !! trans_id) eqn:Hknown; [by intros [= <- _ <-]|].
    match goal with
    | |- context [_determine_path ?p ?g ?i ?s] =>
        destruct (_determine_path p g i s) as [[path'|e] [t' known']]
    end; [|done].
    intros [= <- _ <-]. apply lookup_insert_eq.
Qed.

(** Property X22.  A path that [get_path] has returned is frozen: it is
    stored in the memo, the entries the memo had are kept, and every later
    [get_path] for the same id returns the stored path without looking at
    the transform, however the transform has been changed in between. *)
Theorem get_path_frozen (fuel : nat) (trans_id path : string)
    (t t1 : TreeTransform) (known known1 : gmap string string) :
  get_path pathjoin fuel trans_id (t, known) = (Ok path, (t1, known1)) →
  known1 !! trans_id = Some path
  ∧ known ⊆ known1
  ∧ ∀ fuel' t2,
      get_path pathjoin fuel' trans_id (t2, known1) = (Ok path, (t2, known1)).
Proof.
  intros Hrun. pose proof (get_path_stores _ _ _ _ _ _ _ Hrun) as Hstored.
  split; [done|]. split.
  - exact (get_path_memo_grows _ _ _ _ _ _ Hrun).
  - intros fuel' t2. by apply get_path_known.
Qed.

Lemma get_paths_loop (fuel : nat) (trans_ids : list string) :
  ∀ (acc paths : list (string * string)) (t t1 : TreeTransform)
    (known known1 : gmap string string),
    for_each trans_ids acc
      (λ t acc, path ← get_path pathjoin fuel t; mret (acc ++ [(path, t)]))
      (t, known) = (Ok paths, (t1, known1)) →
    (∀ path trans_id, (path, trans_id) ∈ acc →
                      known !! trans_id = Some path) →
    paths.*2 = acc.*2 ++ trans_ids
    ∧ ∀ path trans_id, (path, trans_id) ∈ paths →
                       known1 !! trans_id = Some path.
Proof.
  induction trans_ids as [|x trans_ids IH];
    intros acc paths t t1 known known1.
  - intros [= <- <- <-] Hacc. by rewrite app_nil_r.
  - rewrite for_each_cons, bind_run.
    destruct (get_path pathjoin fuel x (t, known))
      as [[path|e] [t' known']] eqn:Hx; [|done].
    pose proof (get_path_stores _ _ _ _ _ _ _ Hx) as Hstored.
    pose proof (get_path_memo_grows _ _ _ _ _ _ Hx) as Hsub. simpl in Hsub.
    intros Hrest Hacc.
    destruct (IH _ _ _ _ _ _ Hrest) as [Hids Hpaths].
    { intros p i [Hin|Hin%list_elem_of_singleton]%elem_of_app.
      - eapply lookup_weaken; [by apply Hacc|done].
      - by injection Hin as -> ->. }
    split; [|done].
    rewrite Hids, fmap_app, <- app_assoc. reflexivity.
Qed.

(** Property X23.  [get_paths] returns one [(path, trans_id)] pair for each
    id it is given, in the order given, and each path is the one the memo
    holds for the id afterwards. *)
Theorem get_paths_memoised (fuel : nat) (trans_ids : list string)
    (paths : list (string * string)) (t t1 : TreeTransform)
    (known known1 : gmap string string) :
  get_paths pathjoin fuel trans_ids (t, known) = (Ok paths, (t1, known1)) →
  paths.*2 = trans_ids
  ∧ ∀ path trans_id, (path, trans_id) ∈ paths →
                     known1 !! trans_id = Some path.
Proof.
  intros Hrun. apply (get_paths_loop fuel trans_ids [] paths t t1 known known1).
  - exact Hrun.
  - by intros path trans_id ?%elem_of_nil.
Qed.

(** Property X24.  What [get_path] computes for an id the memo does not
    hold: the empty path for the root and for [ROOT_PARENT]; the bare final
    name for an id whose final parent is the root; otherwise the path of
    the final parent joined with the final name.  In each case the result
    is stored under the id. *)
Theorem get_path_on_miss (fuel : nat) (trans_id : string)
    (t : TreeTransform) (known : gmap string string) :
  known !! trans_id = None →
  (Some trans_id = root t ∨ trans_id = ROOT_PARENT →
   get_path pathjoin (S fuel) trans_id (t, known)
     = (Ok "", (t, <[trans_id := ""]> known)))
  ∧ (∀ name parent t1,
       Some trans_id ≠ root t →
       trans_id ≠ ROOT_PARENT →
       (final_name trans_id t).1 = Ok name →
       final_parent trans_id t = (Ok parent, t1) →
       (Some parent = root t1 →
        get_path pathjoin (S fuel) trans_id (t, known)
          = (Ok name, (t1, <[trans_id := name]> known)))
       ∧ (∀ parent_path t2 known2,
            Some parent ≠ root t1 →
            get_path pathjoin fuel parent (t1, known)
              = (Ok parent_path, (t2, known2)) →
            get_path pathjoin (S fuel) trans_id (t, known)
              = (Ok (pathjoin parent_path name),
                 (t2, <[trans_id := pathjoin parent_path name]> known2)))).
Proof.
  intros Hmiss. split.
  - intros Hroot. simpl. unfold _determine_path. run. rewrite Hmiss.
    destruct Hroot as [Hroot | Hroot].
    + by rewrite (bool_decide_eq_true_2 _ Hroot).
    + rewrite (bool_decide_eq_true_2 (trans_id = ROOT_PARENT) Hroot).
      by rewrite orb_true_r.
  - intros name parent t1 Hroot Hrp Hname Hparent.
    apply final_name_ok in Hname.
    split; [intros Hp|intros parent_path t2 known2 Hp Hrec];
      simpl; unfold _determine_path; run; rewrite Hmiss;
      rewrite (bool_decide_eq_false_2 _ Hroot), (bool_decide_eq_false_2 _ Hrp);
      simpl; unfold on_transform; rewrite Hname, Hparent.
    + by rewrite (bool_decide_eq_true_2 _ Hp).
    + rewrite (bool_decide_eq_false_2 _ Hp). by rewrite Hrec.
Qed.

End PathsFacts.

(** ** Orphans, final names and unrepairable conflicts *)

Section MoreFacts.
Context `{Impl : TransformImpl}.
Variable pathjoin : string → string → string.
Variable _available_backup_name : string → string → TT string.

(** Property X25.  [move_orphan] binds the tree path 'brz-orphans',
    creates that directory when it has no final kind, and stages the orphan
    under it with the name [_available_backup_name] chose for the orphan's
    final name; the warning names the orphan by its old parent's tree path.
    When the old parent has no tree path it raises [KeyError] instead, after
    the directory has been bound and possibly created, and stages
    nothing. *)
Theorem move_orphan_stages (orphan_id parent_id od : string)
    (kind : option string) (t t1 t2 t3 : TreeTransform) :
  trans_id_tree_path "brz-orphans" t = (Ok od, t1) →
  final_kind od t1 = (Ok kind, t2) →
  (if bool_decide (kind = None) then create_directory od else mret ()) t2
    = (Ok (), t3) →
  (_tree_id_paths t3 !! parent_id = None →
   move_orphan pathjoin _available_backup_name orphan_id parent_id t
     = (Raise (KeyError parent_id), t3))
  ∧ (∀ parent_path actual_name new_name t4,
       _tree_id_paths t3 !! parent_id = Some parent_path →
       (final_name orphan_id t3).1 = Ok actual_name →
       _available_backup_name actual_name od t3 = (Ok new_name, t4) →
       _new_root t4 ≠ Some orphan_id →
       let t' := with_path orphan_id new_name od t4 in
       move_orphan pathjoin _available_backup_name orphan_id parent_id t
         = (Ok (joinpath pathjoin (Some parent_path) actual_name
                  +:+ " has been orphaned in brz-orphans"), t')
       ∧ final_parent orphan_id t' = (Ok od, t')
       ∧ final_name orphan_id t' = (Ok new_name, t')).
Proof.
  intros Hod Hkind Hcreate.
  split.
  - intros Hnone. unfold move_orphan.
    rewrite bind_run, Hod, bind_run, Hkind, bind_run, Hcreate.
    rewrite bind_run. unfold get at 1. cbv beta iota zeta. by rewrite Hnone.
  - intros parent_path actual_name new_name t4 Hpath Hname Hnew Hroot t'.
    apply final_name_ok in Hname. split; [|split].
    + unfold move_orphan.
      rewrite bind_run, Hod, bind_run, Hkind, bind_run, Hcreate.
      rewrite bind_run. unfold get at 1. cbv beta iota zeta. rewrite Hpath.
      rewrite bind_run, Hname, bind_run, Hnew, bind_run.
      by rewrite adjust_path_ok.
    + apply final_parent_staged. apply lookup_insert_eq.
    + apply final_name_staged. apply lookup_insert_eq.
Qed.

(** Property X26.  [final_name] returns a name exactly when the id has a
    staged name or a tree path: the staged name when there is one, whatever
    the tree path is, and otherwise the [basename] of the tree path.  It
    then leaves the transform untouched.  When the id has neither, no name
    is returned. *)
Theorem final_name_sources (trans_id name : string) (t : TreeTransform) :
  ((final_name trans_id t).1 = Ok name
   ↔ _new_name t !! trans_id = Some name
     ∨ (_new_name t !! trans_id = None
        ∧ ∃ path, _tree_id_paths t !! trans_id = Some path
                  ∧ name = os_path.basename path))
  ∧ ((final_name trans_id t).1 = Ok name →
     final_name trans_id t = (Ok name, t)).
Proof.
  split; [|apply final_name_ok].
  unfold final_name. run.
  destruct (_new_name t !! trans_id) as [staged|]; simpl.
  - split; [intros [= ->]; by left|].
    by intros [[= ->] | [? _]].
  - destruct (_tree_id_paths t !! trans_id) as [path|]; simpl.
    + split; [intros [= <-]; right; eauto|].
      by intros [? | [_ (path' & [= <-] & ->)]].
    + split.
      * by destruct (final_file_id trans_id t) as [[file_id|e] t'].
      * by intros [? | [_ (path' & ? & _)]].
Qed.

Lemma resolve_loop_step pass_func (n : nat) acc last (t : TreeTransform) :
  resolve_loop pass_func (S n) acc last t
  = match find_conflicts t with
    | (Ok conflicts, t1) =>
        if bool_decide (length conflicts = 0) then (Ok acc, t1)
        else match pass_func conflicts t1 with
             | (Ok added, t2) =>
                 resolve_loop pass_func n (acc ∪ added) conflicts t2
             | (Raise e, t2) => (Raise e, t2)
             end
    | (Raise e, t1) => (Raise e, t1)
    end.
Proof.
  simpl. run. destruct (find_conflicts t) as [[conflicts|e] t1]; [|done].
  by destruct (bool_decide (length conflicts = 0)).
Qed.

Lemma resolve_loop_unrepairable fuel (conflicts : list raw_conflict)
    (t : TreeTransform) :
  find_conflicts t = (Ok conflicts, t) →
  conflicts ≠ [] →
  (∀ conflict, conflict ∈ conflicts →
     ∃ c_type rest, conflict = c_type :: rest ∧ c_type ∉ repaired_types) →
  ∀ n acc last,
    resolve_loop (conflict_pass None fuel) (S n) acc last t
      = (Raise (MalformedTransform conflicts), t).
Proof.
  intros Hfind Hne Hother.
  assert (conflict_pass None fuel conflicts t = (Ok ∅, t)) as Hpass
    by (by apply conflict_pass_loop_other).
  induction n as [|n IH]; intros acc last;
    rewrite resolve_loop_step, Hfind;
    (rewrite bool_decide_eq_false_2 by (by destruct conflicts));
    rewrite Hpass.
  - reflexivity.
  - apply IH.
Qed.

(** Property X27.  When the detector keeps reporting the same conflicts,
    none of a type that [conflict_pass] has a branch for, and does not
    change the transform itself, [resolve_conflicts] with the default
    repair makes its ten passes without staging anything and raises
    [MalformedTransform] with these conflicts. *)
Theorem resolve_conflicts_unrepairable fuel (conflicts : list raw_conflict)
    (t : TreeTransform) :
  find_conflicts t = (Ok conflicts, t) →
  conflicts ≠ [] →
  (∀ conflict, conflict ∈ conflicts →
     ∃ c_type rest, conflict = c_type :: rest ∧ c_type ∉ repaired_types) →
  resolve_conflicts fuel None t = (Raise (MalformedTransform conflicts), t).
Proof.
  intros Hfind Hne Hother. unfold resolve_conflicts. simpl default.
  by apply resolve_loop_unrepairable.
Qed.

End MoreFacts.

(** ** conflict_pass: the branches that use the other tree *)

Section TreeBranchFacts.
Context `{Impl : TransformImpl}.

(** Property X28.  For an 'unversioned parent' conflict, [conflict_pass]
    versions the reported directory under its inactive file id and records
    [('unversioned parent', 'Versioned directory', id)], except when a
    [path_tree] is given whose root has that file id: that directory is the
    root of the other tree, and it is skipped with nothing versioned and
    nothing recorded. *)
Theorem conflict_pass_unversioned_parent path_tree fuel (trans_id : string)
    (file_id : option string) (t t0 : TreeTransform) :
  inactive_file_id trans_id t = (Ok file_id, t0) →
  (∀ tree new_conflicts,
     path_tree = Some tree →
     path2id_root tree = file_id →
     conflict_pass_body path_tree fuel ["unversioned parent"; trans_id]
       new_conflicts t = (Ok new_conflicts, t0))
  ∧ (∀ t1 new_conflicts,
       (∀ tree, path_tree = Some tree → path2id_root tree ≠ file_id) →
       version_file trans_id file_id t0 = (Ok (), t1) →
       conflict_pass_body path_tree fuel ["unversioned parent"; trans_id]
         new_conflicts t
       = (Ok (new_conflicts
                ∪ {[ ["unversioned parent"; "Versioned directory"; trans_id] ]}),
          t1)).
Proof.
  intros Hfid. split.
  - intros tree new_conflicts -> Hroot.
    unfold conflict_pass_body. simpl. run. simpl.
    unfold pass_unversioned_parent. run. simpl. rewrite Hfid.
    by rewrite bool_decide_eq_true_2.
  - intros t1 new_conflicts Hroot Hversion.
    unfold conflict_pass_body. simpl. run. simpl.
    unfold pass_unversioned_parent. run. simpl. rewrite Hfid.
    destruct path_tree as [tree|].
    + rewrite bool_decide_eq_false_2 by (by apply Hroot).
      by rewrite Hversion.
    + by rewrite Hversion.
Qed.

(** Property X29.  For a 'non-directory parent' conflict, [conflict_pass]
    creates a directory named after the parent's final name followed by
    '.new', under the parent's final parent and with the parent's file id,
    and moves there every child that [by_parent] lists under the parent;
    the parent is unversioned when it had a file id, and
    [('non-directory parent', 'Created directory', new_id)] is recorded. *)
Theorem conflict_pass_non_directory_parent path_tree fuel
    (parent_id parent_parent parent_name new_id : string)
    (parent_file_id : option string) (t t1 t2 t3 t4 : TreeTransform)
    (listed : gmap string (gset string)) (children : gset string) :
  final_parent parent_id t = (Ok parent_parent, t1) →
  (final_name parent_id t1).1 = Ok parent_name →
  final_file_id parent_id t1 = (Ok parent_file_id, t2) →
  new_directory (parent_name +:+ ".new") parent_parent parent_file_id t2
    = (Ok new_id, t3) →
  by_parent t3 = (Ok listed, t4) →
  listed !! parent_id = Some children →
  (∀ c, c ∈ children →
        _new_root t4 ≠ Some c ∧ ∃ n, (final_name c t4).1 = Ok n) →
  ∃ t5,
    _reparent_transform_children parent_id (Some new_id) t3 = (Ok children, t5)
    ∧ (∀ c, c ∈ children → final_parent c t5 = (Ok new_id, t5))
    ∧ ∀ new_conflicts,
        conflict_pass_body path_tree fuel ["non-directory parent"; parent_id]
          new_conflicts t
        = (Ok (new_conflicts
                 ∪ {[ ["non-directory parent"; "Created directory"; new_id] ]}),
           if bool_decide (is_Some parent_file_id)
           then set_removed_id (_removed_id t5 ∪ {[parent_id]}) t5
           else t5).
Proof.
  intros Hpp Hname Hfid Hnew Hlisted Hsome Hok.
  apply final_name_ok in Hname.
  destruct (reparent_children _ new_id _ _ _ _ Hlisted Hsome Hok)
    as (t5 & Hrun & _ & Hin & _).
  exists t5. split; [done|]. split; [intros c Hc; by apply Hin|].
  intros new_conflicts.
  unfold conflict_pass_body. simpl. run. simpl.
  unfold pass_non_directory_parent. run. simpl.
  rewrite Hpp, Hname, Hfid, Hnew, Hrun. unfold unversion_file. run.
  by destruct (bool_decide (is_Some parent_file_id)).
Qed.

(** Property X30.  For a 'missing parent' conflict on an id that is not
    scheduled for deletion and has no final name, when the [path_tree]
    entry of its file id has no parent (it is the root of the other tree),
    no directory is created: every child that [by_parent] lists under the
    id is moved to the root of the transform, and
    [('missing parent', 'Moved to root', child)] is recorded for each. *)
Theorem conflict_pass_moves_to_root (tree : PathTree) fuel
    (trans_id root_id name : string) (e : exn)
    (file_id : option string) (t t0 t1 t2 : TreeTransform)
    (listed : gmap string (gset string)) (children : gset string) :
  trans_id ∉ _removed_contents t →
  final_name trans_id t = (Raise e, t0) →
  is_NoFinalPath e = true →
  (file_id ← final_file_id trans_id;
   match file_id with
   | None => inactive_file_id trans_id
   | Some f => mret (Some f)
   end) t0 = (Ok file_id, t1) →
  entry_of tree file_id = Ok (None, name) →
  root t1 = Some root_id →
  by_parent t1 = (Ok listed, t2) →
  listed !! trans_id = Some children →
  (∀ c, c ∈ children →
        _new_root t2 ≠ Some c ∧ ∃ n, (final_name c t2).1 = Ok n) →
  ∃ t3,
    (∀ c, c ∈ children → final_parent c t3 = (Ok root_id, t3))
    ∧ ∀ new_conflicts,
        conflict_pass_body (Some tree) fuel ["missing parent"; trans_id]
          new_conflicts t
        = (Ok (new_conflicts
                 ∪ list_to_set
                     ((λ child, ["missing parent"; "Moved to root"; child])
                        <$> elements children)), t3).
Proof.
  intros Hdel Hname Hcaught Hfid Hentry Hroot Hlisted Hsome Hok.
  destruct (reparent_children _ root_id _ _ _ _ Hlisted Hsome Hok)
    as (t3 & Hrun & _ & Hin & _).
  exists t3. split; [intros c Hc; by apply Hin|].
  intros new_conflicts. revert Hfid.
  unfold conflict_pass_body. simpl. run. simpl.
  unfold pass_missing_parent. run. simpl.
  rewrite bool_decide_eq_false_2 by done. rewrite Hname, Hcaught.
  destruct (final_file_id trans_id t0) as [[[f|]|e'] t'].
  - intros [= <- <-]. by rewrite Hentry, Hroot, Hrun.
  - intros ->. by rewrite Hentry, Hroot, Hrun.
  - done.
Qed.

End TreeBranchFacts.

(** * Worked examples *)

(** ** The staging graph *)

(** C8 on [deleting_a]: [new-1] is scheduled for deletion and has no kind;
    once that deletion is cancelled its kind is the tree's. *)
Lemma final_kind_computed_witness :
  @final_kind sample_impl "new-1" deleting_a = (Ok None, deleting_a)
  ∧ @final_kind sample_impl "new-1" (set_removed_contents ∅ deleting_a)
    = @tree_kind sample_impl "new-1" (set_removed_contents ∅ deleting_a).
Proof.
  destruct (@final_kind_computed sample_impl "new-1" deleting_a)
    as (_ & Hremoved & _).
  destruct (@final_kind_computed sample_impl "new-1"
              (set_removed_contents ∅ deleting_a)) as (_ & _ & Htree).
  split; [apply Hremoved | apply Htree]; compute_done.
Defined.

(** C9 on [tree_ab], whose root is [new-0]. *)
Lemma adjust_path_guards_witness :
  adjust_path "x" None "new-0" tree_ab
    = (Raise (ValueError "Parent trans-id may not be None"), tree_ab)
  ∧ adjust_path "x" (Some "new-1") "new-0" tree_ab
    = (Raise CantMoveRoot, tree_ab).
Proof.
  destruct (adjust_path_guards "x" "new-0" tree_ab) as [_ Hroot].
  apply (Hroot "new-0" "new-1"). compute_done.
Defined.

(** ** The resolver *)

(** C6 on [tree_ab], where nothing is staged. *)
Lemma resolve_conflicts_no_conflicts_witness :
  @resolve_conflicts sample_impl 0 None tree_ab = (Ok ∅, tree_ab)
  ∧ staging_graph (@resolve_conflicts sample_impl 0 None tree_ab).2
    = staging_graph tree_ab.
Proof.
  apply (@resolve_conflicts_no_conflicts sample_impl 0 None tree_ab tree_ab);
    compute_done.
Defined.

(** C2 on [two_new_files]: [conflict_pass] repairs the duplicate in one
    pass and the second pass finds nothing; with a resolver that repairs
    nothing the same conflict comes back ten times and the transform is
    declared malformed. *)
Lemma resolve_conflicts_ten_passes_witness :
  @resolve_conflicts sample_impl 0 None two_new_files
    = (Ok {[ ["duplicate"; "Moved existing file to"; "new-4"; "new-3"] ]},
       with_path "new-4" "f.moved" "new-0" two_new_files)
  ∧ @resolve_conflicts sample_impl 0 (Some idle_pass) two_new_files
    = (Raise (MalformedTransform [["duplicate"; "new-3"; "new-4"]]),
       two_new_files).
Proof.
  set (dups := [["duplicate"; "new-3"; "new-4"]]).
  set (moved := with_path "new-4" "f.moved" "new-0" two_new_files).
  assert (dups ≠ []) as Hne by done.
  assert (@find_conflicts sample_impl two_new_files = (Ok dups, two_new_files))
    as Hfind by compute_done.
  destruct (@resolve_conflicts_ten_passes sample_impl 0 None two_new_files)
    as [Hdone _].
  destruct (@resolve_conflicts_ten_passes sample_impl 0 (Some idle_pass)
              two_new_files) as [_ Hfail].
  split.
  - assert (@conflict_pass sample_impl None 0 dups two_new_files
            = (Ok {[ ["duplicate"; "Moved existing file to"; "new-4"; "new-3"] ]},
               moved)) as Hpass by compute_done.
    assert (@find_conflicts sample_impl moved = (Ok [], moved))
      as Hquiet by compute_done.
    pose proof (passes_S _ _ _ _ _ _ _ _ _ _ (passes_O _ _) Hfind Hne Hpass)
      as P1.
    rewrite (Hdone 1 _ _ _ _ ltac:(lia) P1 Hquiet).
    rewrite (left_id_L ∅ (∪)). reflexivity.
  - assert (idle_pass dups two_new_files = (Ok ∅, two_new_files))
      as Hidle by reflexivity.
    pose proof (passes_S _ _ _ _ _ _ _ _ _ _ (passes_O _ _) Hfind Hne Hidle)
      as P1.
    pose proof (passes_S _ _ _ _ _ _ _ _ _ _ P1 Hfind Hne Hidle) as P2.
    pose proof (passes_S _ _ _ _ _ _ _ _ _ _ P2 Hfind Hne Hidle) as P3.
    pose proof (passes_S _ _ _ _ _ _ _ _ _ _ P3 Hfind Hne Hidle) as P4.
    pose proof (passes_S _ _ _ _ _ _ _ _ _ _ P4 Hfind Hne Hidle) as P5.
    pose proof (passes_S _ _ _ _ _ _ _ _ _ _ P5 Hfind Hne Hidle) as P6.
    pose proof (passes_S _ _ _ _ _ _ _ _ _ _ P6 Hfind Hne Hidle) as P7.
    pose proof (passes_S _ _ _ _ _ _ _ _ _ _ P7 Hfind Hne Hidle) as P8.
    pose proof (passes_S _ _ _ _ _ _ _ _ _ _ P8 Hfind Hne Hidle) as P9.
    exact (Hfail _ _ _ _ _ _ _ P9 Hfind Hne Hidle).
Defined.

(** ** Duplicate ids *)

(** Counterexample to claim C5 as stated: for the reported pair
    [(new-1, new-2)] the id that is unversioned is [new-1], the first of the
    pair, and [new-2], the second, is not. *)
Lemma duplicate_id_unversions_first :
  "new-1" ∈ _removed_id (@conflict_pass base_impl None 0
                           [["duplicate id"; "new-1"; "new-2"]] tree_ab).2
  ∧ "new-2" ∉ _removed_id (@conflict_pass base_impl None 0
                             [["duplicate id"; "new-1"; "new-2"]] tree_ab).2.
Proof. compute_done. Qed.

(** C5, amended, on the same pair. *)
Lemma conflict_pass_duplicate_id_witness :
  @conflict_pass base_impl None 0 [["duplicate id"; "new-1"; "new-2"]] tree_ab
    = (Ok {[ ["duplicate id"; "Unversioned existing file"; "new-1"; "new-2"] ]},
       set_removed_id (_removed_id tree_ab ∪ {["new-1"]}) tree_ab)
  ∧ ("new-2" ∈ _removed_id
        (set_removed_id (_removed_id tree_ab ∪ {["new-1"]}) tree_ab)
     ↔ "new-2" ∈ _removed_id tree_ab).
Proof.
  destruct (@conflict_pass_duplicate_id base_impl None 0 "new-1" "new-2"
              tree_ab) as (_ & Hpass & _ & Hsecond).
  split; [exact Hpass|]. apply Hsecond. compute_done.
Defined.

(** ** Duplicate names *)

(** Counterexample to claim C3 as stated: when both ids of the pair were
    explicitly moved, the id treated as existing and renamed to [c.moved] is
    [new-2], the second-reported one; [new-1], the first-reported one, keeps
    the name [c]. *)
Lemma duplicate_both_moved_renames_second :
  path_changed both_moved "new-1" = true
  ∧ path_changed both_moved "new-2" = true
  ∧ (@conflict_pass base_impl None 0 [["duplicate"; "new-1"; "new-2"]]
       both_moved).1
    = Ok {[ ["duplicate"; "Moved existing file to"; "new-2"; "new-1"] ]}
  ∧ _new_name (@conflict_pass base_impl None 0 [["duplicate"; "new-1"; "new-2"]]
                 both_moved).2 !! "new-1" = Some "c"
  ∧ _new_name (@conflict_pass base_impl None 0 [["duplicate"; "new-1"; "new-2"]]
                 both_moved).2 !! "new-2" = Some "c.moved".
Proof. compute_done. Qed.

(** C3, amended, on [new_over_a]: the new file [new-3] was staged by the
    caller, so the [a] of the tree, [new-1], is the existing file. *)
Lemma conflict_pass_duplicate_name_witness :
  @conflict_pass base_impl None 0 [["duplicate"; "new-3"; "new-1"]] new_over_a
  = (Ok {[ ["duplicate"; "Moved existing file to"; "new-1"; "new-3"] ]},
     with_path "new-1" "a.moved" "new-0" new_over_a).
Proof.
  rewrite (proj1 (proj2 (@conflict_pass_duplicate_name base_impl None 0
                           "new-3" "new-1" "new-0" "a" new_over_a new_over_a
                           ltac:(compute_done) ltac:(compute_done)
                           ltac:(compute_done)))).
  compute_done.
Defined.

(** ** Parent loops *)

(** Counterexample to claim C4 as stated: [new-1] is [a] in the tree and
    was staged as [x] in [new-2]; after the pass has reverted it, its name is
    still [x], not its original name [a]. *)
Lemma parent_loop_keeps_staged_name :
  tree_path swapped_ab "new-1" = Some "a"
  ∧ (@conflict_pass base_impl None 1 [["parent loop"; "new-1"]] swapped_ab).1
    = Ok {[ ["parent loop"; "Cancelled move"; "new-1"; "new-2"] ]}
  ∧ (@final_name base_impl "new-1"
       (@conflict_pass base_impl None 1 [["parent loop"; "new-1"]]
          swapped_ab).2).1 = Ok "x"
  ∧ (@final_name base_impl "new-1"
       (@conflict_pass base_impl None 1 [["parent loop"; "new-1"]]
          swapped_ab).2).1 ≠ Ok (os_path.basename "a").
Proof. compute_done. Qed.

(** C4, amended: on [swapped_ab_child] the walk starts at [a/k], whose path
    is unchanged, and stops at its parent [new-1]; on [swapped_ab] one pass
    on the loop of [new-1] and [new-2] leaves both leading to
    [ROOT_PARENT]. *)
Lemma conflict_pass_parent_loop_witness :
  @conflict_pass base_impl None 2 [["parent loop"; "new-3"]] swapped_ab_child
    = (Ok {[ ["parent loop"; "Cancelled move"; "new-1"; "new-2"] ]},
       with_path "new-1" "x" "new-0" swapped_ab_child)
  ∧ (@conflict_pass base_impl None 2 [["parent loop"; "new-1"]] swapped_ab
       = (Ok {[ ["parent loop"; "Cancelled move"; "new-1"; "new-2"] ]},
          with_path "new-1" "x" "new-0" swapped_ab)
     ∧ (reaches_root_parent 2 "new-1"
          (with_path "new-1" "x" "new-0" swapped_ab)).1 = Ok true
     ∧ (reaches_root_parent 3 "new-2"
          (with_path "new-1" "x" "new-0" swapped_ab)).1 = Ok true).
Proof.
  destruct (@conflict_pass_parent_loop base_impl None 2) as [Hrepair Hswap].
  split.
  - refine (proj1 (proj2 (Hrepair "new-3" 1 swapped_ab_child swapped_ab_child
                            swapped_ab_child swapped_ab_child "new-1" "new-2"
                            "x" "new-0" _ _ _ _ _ _))); [| compute_done..].
    apply (chain_step _ _ "new-1" swapped_ab_child); [compute_done..|].
    apply chain_stop. compute_done.
  - destruct (Hswap 1 "new-1" "new-2" "x" "new-0" swapped_ab swapped_ab)
      as (Hpass & _ & Ha & Hb); [compute_done..|auto].
Defined.

(** ** Orphans *)

(** Counterexample to claim C7 as stated: a policy that raises an exception
    which is not an [OrphaningError] for the only child of [new-1].  The
    exception leaves [conflict_pass], no conflict is recorded and the
    deletion of [new-1] stays scheduled. *)
Lemma orphan_policy_other_exception_propagates :
  "new-1" ∈ _removed_contents deleting_a
  ∧ (@_get_potential_orphans faulty_impl "new-1" deleting_a).1
    = Ok (Some ["new-3"])
  ∧ @conflict_pass faulty_impl None 0 [["missing parent"; "new-1"]] deleting_a
    = (Raise (UncaughtOSError (mkOSError 28 "No space left on device")),
       deleting_a)
  ∧ "new-1" ∈ _removed_contents
      (@conflict_pass faulty_impl None 0 [["missing parent"; "new-1"]]
         deleting_a).2.
Proof. compute_done. Qed.

(** C7, amended, with the default policy: the deletion of [a] is cancelled
    because of its child [a/k]. *)
Lemma conflict_pass_orphan_refused_witness :
  @conflict_pass sample_impl None 0 [["missing parent"; "new-1"]] deleting_a
    = (Ok {[ ["deleting parent"; "Not deleting"; "new-1"] ]},
       set_removed_contents (_removed_contents deleting_a ∖ {["new-1"]})
         deleting_a)
  ∧ "new-1" ∉ _removed_contents
      (set_removed_contents (_removed_contents deleting_a ∖ {["new-1"]})
         deleting_a).
Proof.
  destruct (@conflict_pass_orphan_refused sample_impl None 0 "new-1" [] "new-3"
              [] (OrphaningForbidden "never") deleting_a deleting_a deleting_a
              deleting_a ltac:(compute_done) ltac:(compute_done)
              ltac:(compute_done) ltac:(compute_done)) as [Hcaught _].
  destruct (Hcaught ltac:(compute_done) ltac:(compute_done))
    as (_ & Hpass & Hgone).
  split; [exact Hpass | exact Hgone].
Defined.

(** ** The rename journal *)

Lemma map_rename_undo (a b : string) (fs fs' : gmap string string) :
  map_rename a b fs = inr fs' → map_rename b a fs' = inr fs.
Proof.
  unfold map_rename. destruct (fs !! a) as [v|] eqn:Ha; [|done].
  destruct (fs !! b) as [v'|] eqn:Hb; [done|]. intros [= <-].
  assert (a ≠ b) as Hne by congruence.
  rewrite lookup_insert_eq, lookup_insert_ne, lookup_delete_eq by done.
  f_equal. rewrite delete_insert_eq.
  rewrite (delete_id (delete a fs)) by (by rewrite lookup_delete_ne).
  rewrite insert_delete_eq. by apply insert_id.
Qed.

(** C10 on [world_abc]: of three requests the second fails because [c]
    exists; the journal holds the other two, and the failed rename raised
    [FileExists] without touching the disk or the journal. *)
Lemma journal_records_performed_renames_witness :
  journal_exact
    (run_calls map_rename [Rename "a" "a2"; Rename "b" "c"; PreDelete "c" "d"]
       (world_abc, new_mover))
  ∧ rename map_rename "b" "c" (world_abc, new_mover)
    = (Raise (FileExists "c" "File exists"),
       (mkWorld (disk world_abc) [("b", "c", false)], new_mover)).
Proof.
  destruct (journal_records_performed_renames map_rename)
    as (Hinv & Hfail & _).
  split.
  - apply Hinv. reflexivity.
  - apply (Hfail "b" "c" world_abc new_mover (mkOSError EEXIST "File exists")).
    compute_done.
Defined.

(** C1 on [world_abc]: the second of three scheduled renames fails, [apply]
    raises [FileExists] and the disk is what it was. *)
Lemma apply_rolls_back_witness :
  (apply map_rename map_delete_any
     [Rename "a" "a2"; Rename "b" "c"; Rename "c" "d"] world_abc).1
    = Raise (FileExists "c" "File exists")
  ∧ disk (apply map_rename map_delete_any
            [Rename "a" "a2"; Rename "b" "c"; Rename "c" "d"] world_abc).2
    = disk world_abc.
Proof.
  destruct (apply_rolls_back map_rename map_delete_any map_rename_undo
              [Rename "a" "a2"] (Rename "b" "c") [Rename "c" "d"] world_abc
              (for_each [Rename "a" "a2"] () (λ op _, run_op map_rename op)
                 (world_abc, new_mover)).2
              (mkOSError EEXIST "File exists")
              ltac:(compute_done) ltac:(compute_done))
    as (l & w' & Happly & _ & _ & Hdisk & Hexists & _).
  simpl app in Happly. rewrite Happly. simpl. split; [|exact Hdisk].
  exact (f_equal Raise (Hexists (or_introl eq_refl))).
Defined.

(** * More worked examples *)

(** ** Trans ids and tree paths *)

Lemma tree_ab_consistent : tree_ids_consistent tree_ab.
Proof.
  destruct (trans_id_tree_path_consistent "" (init (Some "new-0"))
              (init_consistent _)) as (id0 & t0 & H0 & Hc0 & _).
  destruct (trans_id_tree_path_consistent "a" t0 Hc0)
    as (id1 & t1 & H1 & Hc1 & _).
  destruct (trans_id_tree_path_consistent "b" t1 Hc1)
    as (id2 & t2 & H2 & Hc2 & _).
  assert (tree_ab = t2) as ->; [|done].
  unfold tree_ab. run. rewrite H0, H1, H2. reflexivity.
Qed.

Lemma nothing_staged_allocated (t : TreeTransform) :
  _new_name t = ∅ → _new_parent t = ∅ → staged_ids_allocated t.
Proof.
  intros Hn Hp trans_id. rewrite Hn, Hp, !lookup_empty.
  by intros [[? ?] | [? ?]].
Qed.

(** X2 on [tree_ab]: the path [b/c] gets the next id, [new-3]. *)
Lemma trans_id_tree_path_round_trip_witness :
  ∃ t',
    trans_id_tree_path "b/c" tree_ab = (Ok "new-3", t')
    ∧ tree_path t' "new-3" = Some "b/c".
Proof.
  destruct (trans_id_tree_path_round_trip "b/c" tree_ab tree_ab_consistent)
    as (trans_id & t' & Hrun & Hpath & _).
  assert (trans_id = "new-3") as ->.
  { assert ((trans_id_tree_path "b/c" tree_ab).1 = Ok "new-3") as H
      by compute_done.
    rewrite Hrun in H. by injection H. }
  by exists t'.
Defined.

(** X3 on [tree_ab]: [b/c] and [b/d] get different ids. *)
Lemma trans_id_tree_path_injective_witness :
  tree_path (trans_id_tree_path "b/d"
               (trans_id_tree_path "b/c" tree_ab).2).2 "new-3"
    = Some "b/c".
Proof.
  apply (trans_id_tree_path_injective "b/c" "b/d" "new-3" "new-4" tree_ab
           (trans_id_tree_path "b/c" tree_ab).2
           (trans_id_tree_path "b/d" (trans_id_tree_path "b/c" tree_ab).2).2).
  - exact tree_ab_consistent.
  - compute_done.
  - compute_done.
Defined.

(** X4 on [tree_ab]: the parent of the root is [ROOT_PARENT], an unknown id
    has no tree parent, and the tree parent of [a] is the root. *)
Lemma get_tree_parent_cases_witness :
  get_tree_parent "new-0" tree_ab = (Ok ROOT_PARENT, tree_ab)
  ∧ get_tree_parent "new-7" tree_ab = (Raise (KeyError "new-7"), tree_ab)
  ∧ ∃ parent t',
      get_tree_parent "new-1" tree_ab = (Ok parent, t')
      ∧ tree_path t' parent = Some (os_path.dirname "a").
Proof.
  destruct (get_tree_parent_cases "new-0" tree_ab) as (_ & Hroot & _).
  destruct (get_tree_parent_cases "new-7" tree_ab) as (Hnone & _ & _).
  destruct (get_tree_parent_cases "new-1" tree_ab) as (_ & _ & Hdir).
  split; [apply Hroot; compute_done|].
  split; [apply Hnone; compute_done|].
  destruct (Hdir "a") as (parent & t' & Hrun & Hpath & _);
    [compute_done | done | exact tree_ab_consistent |].
  by exists parent, t'.
Defined.

(** X5 on [tree_ab], where nothing is staged. *)
Lemma create_path_fresh_witness :
  ∃ trans_id t',
    create_path "f" "new-0" tree_ab = (Ok trans_id, t')
    ∧ final_name (Impl := sample_impl) trans_id t' = (Ok "f", t')
    ∧ final_parent trans_id t' = (Ok "new-0", t').
Proof.
  destruct (create_path_fresh (Impl := sample_impl) "f" "new-0" tree_ab)
    as (trans_id & t' & Hrun & _ & _ & _ & _ & Hname & Hparent & _).
  { apply nothing_staged_allocated; compute_done. }
  by exists trans_id, t'.
Defined.

(** X6 on [tree_ab]: [a] renamed to [x] under [b]. *)
Lemma adjust_path_overrides_witness :
  adjust_path "x" (Some "new-2") "new-1" tree_ab
    = (Ok (), with_path "new-1" "x" "new-2" tree_ab)
  ∧ final_name (Impl := sample_impl) "new-1"
      (with_path "new-1" "x" "new-2" tree_ab)
    = (Ok "x", with_path "new-1" "x" "new-2" tree_ab).
Proof.
  destruct (adjust_path_overrides (Impl := sample_impl) "x" "new-2" "new-1"
              tree_ab) as (Hrun & Hname & _).
  { compute_done. }
  by split.
Defined.

(** X7 on [tree_ab]: the executable bit of [a] set, set again, and
    unset. *)
Lemma scheduling_is_write_once_witness :
  let t1 := set_new_executability {[ "new-1" := true ]} tree_ab in
  set_executability (Some true) "new-1" tree_ab = (Ok (), t1)
  ∧ set_executability (Some false) "new-1" t1
    = (Raise (DuplicateKey "new-1"), t1)
  ∧ set_executability None "new-1" t1 = (Ok (), tree_ab).
Proof.
  destruct (scheduling_is_write_once "new-1" tree_ab) as (Hset & _ & _).
  apply (Hset true false). compute_done.
Defined.

(** X8 on [tree_ab] with the sample tree, where [a] is a directory. *)
Lemma delete_contents_cancel_deletion_witness :
  let t2 := set_removed_contents {[ "new-1" ]} tree_ab in
  delete_contents (Impl := sample_impl) "new-1" tree_ab = (Ok (), t2)
  ∧ final_kind (Impl := sample_impl) "new-1" t2 = (Ok None, t2)
  ∧ cancel_deletion "new-1" t2 = (Ok (), tree_ab)
  ∧ cancel_deletion "new-1" tree_ab = (Raise (KeyError "new-1"), tree_ab).
Proof.
  destruct (delete_contents_cancel_deletion (Impl := sample_impl) "new-1"
              tree_ab tree_ab) as (_ & Hsome & Hnone).
  destruct (Hsome "directory") as (Hdel & Hkind & Hcancel); [compute_done|].
  simpl. split; [|split; [|split]].
  - rewrite Hdel. compute_done.
  - assert (set_removed_contents {[ "new-1" ]} tree_ab
            = set_removed_contents (_removed_contents tree_ab ∪ {[ "new-1" ]})
                tree_ab) as -> by compute_done.
    apply Hkind. compute_done.
  - assert (set_removed_contents {[ "new-1" ]} tree_ab
            = set_removed_contents (_removed_contents tree_ab ∪ {[ "new-1" ]})
                tree_ab) as -> by compute_done.
    apply Hcancel. compute_done.
  - apply Hnone. compute_done.
Defined.

(** ** Reparenting and conflict_pass *)

(** X10 on [tree_ab_k]: the child [a/k] of [a] is moved under [b] and
    keeps its name; [b] itself has no child to move. *)
Lemma reparenting_moves_children_witness :
  (∃ t2,
     _reparent_transform_children (Impl := sample_impl) "new-1" (Some "new-2")
       tree_ab_k = (Ok {[ "new-3" ]}, t2)
     ∧ final_parent "new-3" t2 = (Ok "new-2", t2)
     ∧ (final_name (Impl := sample_impl) "new-3" t2).1 = Ok "k")
  ∧ _reparent_transform_children (Impl := sample_impl) "new-2" (Some "new-1")
      tree_ab_k = (Raise (KeyError "new-2"), tree_ab_k).
Proof.
  set (listed := ({[ ROOT_PARENT := {[ "new-0" ]};
                     "new-0" := {[ "new-1"; "new-2" ]};
                     "new-1" := {[ "new-3" ]} ]}
                  : gmap string (gset string))).
  assert (by_parent tree_ab_k = (Ok listed, tree_ab_k)) as Hlisted
    by compute_done.
  destruct (reparenting_moves_children (Impl := sample_impl) "new-1" "new-2"
              tree_ab_k tree_ab_k listed Hlisted) as [_ Hsome].
  destruct (reparenting_moves_children (Impl := sample_impl) "new-2" "new-1"
              tree_ab_k tree_ab_k listed Hlisted) as [Hnone _].
  split; [|apply Hnone; compute_done].
  destruct (Hsome {[ "new-3" ]}) as (t2 & Hrun & Hin & _); [compute_done| |].
  { intros c ->%elem_of_singleton. split; [compute_done|].
    exists "k". compute_done. }
  exists t2. split; [done|].
  destruct (Hin "new-3") as [Hp Hn]; [by apply elem_of_singleton|].
  split; [done|]. rewrite Hn. compute_done.
Defined.

(** X11 on [deleting_a] with the 'move' policy: [a/k] is moved into
    [brz-orphans], [a] stays scheduled for deletion and nothing is
    recorded. *)
Lemma conflict_pass_orphans_placed_witness :
  ∃ t1,
    conflict_pass (Impl := moving_impl) None 0
      [["missing parent"; "new-1"]] deleting_a = (Ok ∅, t1)
    ∧ "new-1" ∈ _removed_contents t1
    ∧ final_parent "new-3" t1 = (Ok "new-4", t1).
Proof.
  set (t1 := (for_each ["new-3"] ()
                (λ o _, new_orphan (TransformImpl := moving_impl) o "new-1")
                deleting_a).2).
  destruct (conflict_pass_orphans_placed (Impl := moving_impl) None 0
              "new-1" "new-3" [] deleting_a deleting_a t1) as [_ Hpass];
    [compute_done..|].
  exists t1. split; [exact Hpass|]. split; compute_done.
Defined.

(** X12 on [deleting_a_k] with the default policy: the only child of [a]
    is deleted with it, so nobody would be orphaned, and the deletion of
    [a] is cancelled all the same. *)
Lemma conflict_pass_no_orphans_witness :
  conflict_pass (Impl := sample_impl) None 0
    [["missing parent"; "new-1"]] deleting_a_k
  = (Ok {[ ["deleting parent"; "Not deleting"; "new-1"] ]},
     set_removed_contents (_removed_contents deleting_a_k ∖ {[ "new-1" ]})
       deleting_a_k).
Proof.
  apply (conflict_pass_no_orphans (Impl := sample_impl) None 0 "new-1"
           (Some []) deleting_a_k deleting_a_k).
  - compute_done.
  - compute_done.
  - by right.
  - compute_done.
Defined.

(** X13 on [tree_ab]: an 'overwrite' conflict is passed over. *)
Lemma conflict_pass_ignores_other_types_witness :
  conflict_pass (Impl := sample_impl) None 0 [["overwrite"; "new-1"; "a"]]
    tree_ab = (Ok ∅, tree_ab).
Proof.
  apply (conflict_pass_ignores_other_types (Impl := sample_impl)).
  intros conflict ->%list_elem_of_singleton.
  exists "overwrite", ["new-1"; "a"]. split; [done|]. compute_done.
Defined.

(** X14 on [under_new_9]: [new-9] has no final name and is created as a
    directory. *)
Lemma conflict_pass_missing_parent_creates_witness :
  conflict_pass_body (Impl := dir_impl) None 0 ["missing parent"; "new-9"] ∅
    under_new_9
  = (Ok {[ ["missing parent"; "Created directory"; "new-9"] ]},
     set_new_contents {[ "new-9" := "directory" ]} under_new_9).
Proof.
  rewrite (conflict_pass_missing_parent_creates (Impl := dir_impl) 0 "new-9"
             (Raise (NoFinalPath "new-9" None (Some "new-0")))
             under_new_9 under_new_9).
  - compute_done.
  - compute_done.
  - compute_done.
  - by intros e [= <-].
Defined.

(** X27 on [tree_ab] with the detector of [dir_impl]. *)
Lemma resolve_conflicts_unrepairable_witness :
  resolve_conflicts (Impl := dir_impl) 0 None tree_ab
  = (Raise (MalformedTransform [["overwrite"; "new-1"; "a"]]), tree_ab).
Proof.
  apply (resolve_conflicts_unrepairable (Impl := dir_impl)).
  - compute_done.
  - done.
  - intros conflict ->%list_elem_of_singleton.
    exists "overwrite", ["new-1"; "a"]. split; [done|]. compute_done.
Defined.

(** X28 with [other_tree]: [new-9] has the file id of the other tree's
    root and is skipped; [new-1] is versioned. *)
Lemma conflict_pass_unversioned_parent_witness :
  conflict_pass_body (Impl := dir_impl) (Some other_tree) 0
    ["unversioned parent"; "new-9"] ∅ tree_ab = (Ok ∅, tree_ab)
  ∧ conflict_pass_body (Impl := dir_impl) (Some other_tree) 0
      ["unversioned parent"; "new-1"] ∅ tree_ab
    = (Ok (∅ ∪ {[ ["unversioned parent"; "Versioned directory"; "new-1"] ]}),
       tree_ab).
Proof.
  destruct (conflict_pass_unversioned_parent (Impl := dir_impl)
              (Some other_tree) 0 "new-9" (Some "id-new-9") tree_ab tree_ab)
    as [Hskip _]; [compute_done|].
  destruct (conflict_pass_unversioned_parent (Impl := dir_impl)
              (Some other_tree) 0 "new-1" (Some "id-new-1") tree_ab tree_ab)
    as [_ Hversion]; [compute_done|].
  split.
  - by apply (Hskip other_tree).
  - apply Hversion; [|compute_done].
    intros tree [= <-]. compute_done.
Defined.

(** X29 on [tree_ab_k]: [a] is not a directory; [a.new] is created as
    [new-4] in the root and [a/k] is moved there. *)
Lemma conflict_pass_non_directory_parent_witness :
  ∃ t5,
    final_parent "new-3" t5 = (Ok "new-4", t5)
    ∧ conflict_pass_body (Impl := dir_impl) None 0
        ["non-directory parent"; "new-1"] ∅ tree_ab_k
      = (Ok (∅ ∪ {[ ["non-directory parent"; "Created directory"; "new-4"] ]}),
         t5).
Proof.
  set (t3 := (new_directory (TransformImpl := dir_impl) "a.new" "new-0" None
                tree_ab_k).2).
  set (listed := ({[ ROOT_PARENT := {[ "new-0" ]};
                     "new-0" := {[ "new-1"; "new-2"; "new-4" ]};
                     "new-1" := {[ "new-3" ]} ]}
                  : gmap string (gset string))).
  destruct (conflict_pass_non_directory_parent (Impl := dir_impl) None 0
              "new-1" "new-0" "a" "new-4" None tree_ab_k tree_ab_k tree_ab_k
              t3 t3 listed {[ "new-3" ]})
    as (t5 & _ & Hin & Hpass); [compute_done..| |].
  { intros c ->%elem_of_singleton. split; [compute_done|].
    exists "k". compute_done. }
  exists t5. split; [apply Hin; by apply elem_of_singleton|].
  exact (Hpass ∅).
Defined.

(** X30 on [under_new_9] with [other_tree]: [new-9] stands for the root
    of the other tree, and its child [a/k] is moved to the root. *)
Lemma conflict_pass_moves_to_root_witness :
  ∃ t3,
    final_parent "new-3" t3 = (Ok "new-0", t3)
    ∧ conflict_pass_body (Impl := dir_impl) (Some other_tree) 0
        ["missing parent"; "new-9"] ∅ under_new_9
      = (Ok (∅ ∪ list_to_set
                   ((λ child, ["missing parent"; "Moved to root"; child])
                      <$> elements ({[ "new-3" ]} : gset string))), t3).
Proof.
  set (listed := ({[ ROOT_PARENT := {[ "new-0" ]};
                     "new-0" := {[ "new-1"; "new-2" ]};
                     "new-9" := {[ "new-3" ]} ]}
                  : gmap string (gset string))).
  destruct (conflict_pass_moves_to_root (Impl := dir_impl) other_tree 0
              "new-9" "new-0" ""
              (NoFinalPath "new-9" None (Some "new-0")) (Some "id-new-9")
              under_new_9 under_new_9 under_new_9 under_new_9 listed
              {[ "new-3" ]})
    as (t3 & Hin & Hpass); [compute_done..| |].
  { intros c ->%elem_of_singleton. split; [compute_done|].
    exists "k". compute_done. }
  exists t3. split; [apply Hin; by apply elem_of_singleton|].
  exact (Hpass ∅).
Defined.

(** ** The rename journal *)

(** X15 on [world_abc]: [a] is renamed and the rename rolled back; the
    journal is then used up, and a [rename] through it moves [b] without
    recording it. *)
Lemma mover_not_reusable_witness :
  let s' := (rollback map_rename
               (rename map_rename "a" "a2" (world_abc, new_mover)).2).2 in
  rollback map_rename s' = (Raise TypeError, s')
  ∧ apply_deletions map_delete_any s' = (Raise TypeError, s')
  ∧ (rename map_rename "b" "b2" s').1 = Raise AttributeError
  ∧ disk (rename map_rename "b" "b2" s').2.1 !! "b2" = Some "B".
Proof.
  intros s'.
  destruct (mover_not_reusable map_rename map_delete_any
              (rename map_rename "a" "a2" (world_abc, new_mover)).2 s')
    as (Hrollback & Hdeletions & Hrename); [left; compute_done|].
  split; [done|]. split; [done|].
  rewrite (Hrename "b" "b2" (<["b2" := "B"]> (delete "b" (disk s'.1))))
    by compute_done.
  split; [done|]. compute_done.
Defined.

(** X16 on [world_abc]: the journal says that [a] was renamed to [b], but
    [a] exists, so the rename back fails; although the errno is [EEXIST],
    the exception is [TransformRenameFailed]. *)
Lemma rollback_stops_at_failed_undo_witness :
  let m := mkFileMover (Some [("a", "b")]) (Some []) in
  rollback map_rename (world_abc, m)
  = (Raise (TransformRenameFailed "b" "a" "File exists" EEXIST),
     (mkWorld (disk world_abc) [("b", "a", false)], m)).
Proof.
  intros m.
  apply (rollback_stops_at_failed_undo map_rename [] [] "a" "b" world_abc
           world_abc m (mkOSError EEXIST "File exists")); compute_done.
Defined.

(** X17 on [world_abc]: [a] renamed and [b] moved out of the way. *)
Lemma journal_after_requests_witness :
  let s1 := (for_each [Rename "a" "a2"; PreDelete "b" "b.tmp"] ()
               (λ op _, run_op map_rename op) (world_abc, new_mover)).2 in
  past_renames s1.2 = Some [("a", "a2"); ("b", "b.tmp")]
  ∧ pending_deletions s1.2 = Some ["b.tmp"].
Proof.
  intros s1.
  destruct (journal_after_requests map_rename
              [Rename "a" "a2"; PreDelete "b" "b.tmp"] world_abc s1)
    as (Hpast & Hpending & _); [compute_done|].
  by split.
Defined.

(** X18 on [world_abc]: [a] and [b] deleted; with a missing path between
    them, [a] is deleted, [b] is not, and the journal is kept. *)
Lemma apply_deletions_in_order_witness :
  apply_deletions map_delete_any
    (world_abc, mkFileMover (Some []) (Some ["a"; "b"]))
  = (Ok (), (mkWorld {[ "c" := "C" ]} [], mkFileMover None None))
  ∧ apply_deletions map_delete_any
      (world_abc, mkFileMover (Some []) (Some ["a"; "zz"; "b"]))
    = (Raise (UncaughtOSError (mkOSError 2 "No such file or directory")),
       (mkWorld {[ "b" := "B"; "c" := "C" ]} [],
        mkFileMover (Some []) (Some ["a"; "zz"; "b"]))).
Proof.
  destruct (apply_deletions_in_order map_delete_any world_abc
              (mkFileMover (Some []) (Some ["a"; "b"]))) as [Hall _].
  destruct (apply_deletions_in_order map_delete_any world_abc
              (mkFileMover (Some []) (Some ["a"; "zz"; "b"]))) as [_ Hfail].
  split.
  - apply (Hall ["a"; "b"]); compute_done.
  - apply (Hfail ["a"] "zz" ["b"]); compute_done.
Defined.

(** X19 on [world_abc]: two renames, then [rollback]. *)
Lemma rollback_restores_witness :
  let s1 := (for_each [Rename "a" "a2"; PreDelete "b" "b.tmp"] ()
               (λ op _, run_op map_rename op) (world_abc, new_mover)).2 in
  (rollback map_rename s1).1 = Ok ()
  ∧ disk (rollback map_rename s1).2.1 = disk world_abc.
Proof.
  intros s1.
  rewrite (rollback_restores map_rename map_rename_undo
             [Rename "a" "a2"; PreDelete "b" "b.tmp"] world_abc s1)
    by compute_done.
  by split.
Defined.

(** ** resolve_checkout *)

(** X20 on [two_new_files]: the 'duplicate' is repaired, and then the
    'missing parent' conflict makes [resolve_checkout] give up. *)
Lemma resolve_checkout_asserts_witness :
  resolve_checkout (Impl := sample_impl)
    [["duplicate"; "new-3"; "new-4"]; ["missing parent"; "new-1"]] ∅
    two_new_files
  = (Ok (inr "missing parent"),
     with_path "new-3" "f.moved" "new-0" two_new_files).
Proof.
  apply (resolve_checkout_asserts (Impl := sample_impl) ∅
           [["duplicate"; "new-3"; "new-4"]] "missing parent" ["new-1"] []
           {[ ["duplicate"; "Moved existing file to"; "new-3"; "new-4"] ]});
    compute_done.
Defined.

(** X21 on [two_new_files]: neither file has new contents, so the second
    one counts as new; it is diverted when it is in [divert], and the first
    one is moved otherwise. *)
Lemma resolve_checkout_duplicate_witness :
  resolve_checkout (Impl := sample_impl) [["duplicate"; "new-3"; "new-4"]]
    {[ "new-4" ]} two_new_files
  = (Ok (inl {[ ["duplicate"; "Diverted to"; "new-4"; "new-3"] ]}),
     with_path "new-4" "f.diverted" "new-0" two_new_files)
  ∧ resolve_checkout (Impl := sample_impl) [["duplicate"; "new-3"; "new-4"]]
      ∅ two_new_files
    = (Ok (inl {[ ["duplicate"; "Moved existing file to"; "new-3"; "new-4"] ]}),
       with_path "new-3" "f.moved" "new-0" two_new_files).
Proof.
  destruct (resolve_checkout_duplicate (Impl := sample_impl) {[ "new-4" ]}
              "new-3" "new-4" two_new_files two_new_files "new-0" "f")
    as [Hdivert _]; [compute_done..|].
  destruct (resolve_checkout_duplicate (Impl := sample_impl) ∅
              "new-3" "new-4" two_new_files two_new_files "new-0" "f")
    as [_ Hmove]; [compute_done..|].
  split; [apply Hdivert | apply Hmove]; compute_done.
Defined.

(** ** FinalPaths *)

(** X22 on [tree_ab_k]: the path of [a/k] is computed once; after [a] is
    renamed to [x] the memo still answers [a/k]. *)
Lemma get_path_frozen_witness :
  let s1 := (get_path (Impl := sample_impl) slash_join 3 "new-3"
               (tree_ab_k, ∅)).2 in
  s1.2 !! "new-3" = Some "a/k"
  ∧ get_path (Impl := sample_impl) slash_join 0 "new-3"
      (with_path "new-1" "x" "new-0" tree_ab_k, s1.2)
    = (Ok "a/k", (with_path "new-1" "x" "new-0" tree_ab_k, s1.2)).
Proof.
  intros s1.
  destruct (get_path_frozen (Impl := sample_impl) slash_join 3 "new-3" "a/k"
              tree_ab_k s1.1 ∅ s1.2) as (Hstored & _ & Hlater);
    [compute_done|].
  split; [done|]. apply Hlater.
Defined.

(** X23 on [tree_ab_k]. *)
Lemma get_paths_memoised_witness :
  (get_paths (Impl := sample_impl) slash_join 3 ["new-3"; "new-2"]
     (tree_ab_k, ∅)).1
  = Ok [("a/k", "new-3"); ("b", "new-2")].
Proof.
  set (s1 := (get_paths (Impl := sample_impl) slash_join 3 ["new-3"; "new-2"]
                (tree_ab_k, ∅)).2).
  destruct (get_paths_memoised (Impl := sample_impl) slash_join 3
              ["new-3"; "new-2"] [("a/k", "new-3"); ("b", "new-2")]
              tree_ab_k s1.1 ∅ s1.2) as [Hids _]; [compute_done|].
  compute_done.
Defined.

(** X24 on [tree_ab_k]: the root, [a] under the root, and [a/k]. *)
Lemma get_path_on_miss_witness :
  get_path (Impl := sample_impl) slash_join 1 "new-0" (tree_ab_k, ∅)
    = (Ok "", (tree_ab_k, {[ "new-0" := "" ]}))
  ∧ get_path (Impl := sample_impl) slash_join 1 "new-1" (tree_ab_k, ∅)
    = (Ok "a", (tree_ab_k, {[ "new-1" := "a" ]}))
  ∧ get_path (Impl := sample_impl) slash_join 2 "new-3" (tree_ab_k, ∅)
    = (Ok "a/k", (tree_ab_k, {[ "new-1" := "a"; "new-3" := "a/k" ]})).
Proof.
  destruct (get_path_on_miss (Impl := sample_impl) slash_join 0 "new-0"
              tree_ab_k ∅) as [Hroot _]; [done|].
  destruct (get_path_on_miss (Impl := sample_impl) slash_join 0 "new-1"
              tree_ab_k ∅) as [_ Hchild]; [done|].
  destruct (get_path_on_miss (Impl := sample_impl) slash_join 1 "new-3"
              tree_ab_k ∅) as [_ Hdeep]; [done|].
  split; [apply Hroot; by left|]. split.
  - destruct (Hchild "a" "new-0" tree_ab_k) as [Hname _]; [compute_done..|].
    apply Hname. compute_done.
  - destruct (Hdeep "k" "new-1" tree_ab_k) as [_ Hjoin]; [compute_done..|].
    rewrite (Hjoin "a" tree_ab_k {[ "new-1" := "a" ]}) by compute_done.
    compute_done.
Defined.

(** ** Orphans and final names *)

(** X25 on [tree_ab_k]: [a/k] is orphaned by [a]; [brz-orphans] gets the
    id [new-4] and is created, and [a/k] is staged under it. *)
Lemma move_orphan_stages_witness :
  ∃ t',
    move_orphan (Impl := dir_impl) slash_join same_name "new-3" "new-1"
      tree_ab_k
    = (Ok "a/k has been orphaned in brz-orphans", t')
    ∧ final_parent "new-3" t' = (Ok "new-4", t')
    ∧ move_orphan (Impl := dir_impl) slash_join same_name "new-3" "new-7"
        tree_ab_k
      = (Raise (KeyError "new-7"),
         set_new_contents {[ "new-4" := "directory" ]}
           (trans_id_tree_path "brz-orphans" tree_ab_k).2).
Proof.
  set (t1 := (trans_id_tree_path "brz-orphans" tree_ab_k).2).
  set (t3 := set_new_contents {[ "new-4" := "directory" ]} t1).
  destruct (move_orphan_stages (Impl := dir_impl) slash_join same_name
              "new-3" "new-1" "new-4" None tree_ab_k t1 t1 t3)
    as [_ Hstaged]; [compute_done..|].
  destruct (move_orphan_stages (Impl := dir_impl) slash_join same_name
              "new-3" "new-7" "new-4" None tree_ab_k t1 t1 t3)
    as [Hmissing _]; [compute_done..|].
  destruct (Hstaged "a" "k" "k" t3) as (Hrun & Hparent & _);
    [compute_done..|].
  exists (with_path "new-3" "k" "new-4" t3).
  split; [rewrite Hrun; compute_done|]. split; [done|].
  apply Hmissing. compute_done.
Defined.

(** X26 on [swapped_ab]: the staged name [x] of [a] hides its tree name,
    the root has the name of its tree path, and an unknown id has none. *)
Lemma final_name_sources_witness :
  final_name (Impl := sample_impl) "new-1" swapped_ab = (Ok "x", swapped_ab)
  ∧ (final_name (Impl := sample_impl) "new-0" swapped_ab).1 = Ok ""
  ∧ (final_name (Impl := sample_impl) "new-7" swapped_ab).1 ≠ Ok "a".
Proof.
  destruct (final_name_sources (Impl := sample_impl) "new-1" "x" swapped_ab)
    as [Hstaged Hpure].
  destruct (final_name_sources (Impl := sample_impl) "new-0" "" swapped_ab)
    as [Htree _].
  destruct (final_name_sources (Impl := sample_impl) "new-7" "a" swapped_ab)
    as [Hnone _].
  split; [|split].
  - apply Hpure, Hstaged. left. compute_done.
  - apply Htree. right. split; [compute_done|]. exists "". split; compute_done.
  - intros [Hname | [_ (path & Hpath & _)]]%Hnone; revert Hname || revert Hpath;
      compute_done.
Defined.
